(** * ClocklessController over SPI (platforms/esp/32/clockless_esp32.h)

    A shallow embedding of the ESP32 clockless LED controller that drives
    WS281x-style strips through the HSPI peripheral.  Every bit of pixel
    data is expanded to one symbol byte ([mOne] or [mZero]) which the bus,
    clocked at 6.4 MHz, shifts out as a mark/space pulse.

    The controller object is a record; [showPixels] runs in a small
    state-and-fault monad that threads the object, a log of the calls made
    to the allocator and to the bus, and stops at the first access through
    a null pointer or outside the allocated block.  Integer arithmetic wraps
    around as it does on the 32-bit target. *)

From Stdlib Require Import ZArith List Lia.
From stdpp Require Import base list.
Import ListNotations.
Local Open Scope Z_scope.

(** ** Machine integers *)

Definition INT_MIN : Z := - 2 ^ 31.
Definition INT_MAX : Z := 2 ^ 31 - 1.
Definition SIZE_MAX : Z := 2 ^ 32 - 1.

(** The value an [int] operation yields on the target: the mathematical
    result wrapped into the 32-bit two's-complement range. *)
Definition to_int (z : Z) : Z := (z - INT_MIN) mod 2 ^ 32 + INT_MIN.

(** Conversion of an [int] to the 32-bit unsigned [size_t], and unsigned
    multiplication: both wrap around modulo 2^32. *)
Definition to_size_t (z : Z) : Z := z mod 2 ^ 32.

(** The truth value of an integer used as a condition. *)
Definition truthy (z : Z) : bool := negb (z =? 0).

(** ** Template parameters *)

(** Modelled from the spec: the colour orders of the LED framework; the
    enumeration itself is declared outside this header. *)
Inductive EOrder : Set := RGB | RBG | GRB | GBR | BRG | BGR.

Record Template : Set := mkTemplate {
  DATA_PIN : Z;
  T1 : Z;
  T2 : Z;
  T3 : Z;
  RGB_ORDER : EOrder;
  XTRA0 : Z;
  FLIP : bool;
  WAIT_TIME : Z
}.

(** ** The bus peripheral *)

Inductive BitOrder : Set := LSBFIRST | MSBFIRST.
Inductive DataMode : Set := SPI_MODE0 | SPI_MODE1 | SPI_MODE2 | SPI_MODE3.
Inductive SPIBus : Set := FSPI | HSPI | VSPI.

Record SPISettings : Set := mkSPISettings {
  _clock : Z;
  _bitOrder : BitOrder;
  _dataMode : DataMode
}.

Record SPIClass : Set := mkSPIClass { _spi_num : SPIBus }.

(** ** Observable calls *)

Inductive Event : Type :=
| EvNewSPI (bus : SPIBus)
| EvSPIBegin
| EvFree
| EvMalloc (bytes : Z) (ok : bool)
| EvBeginTransaction (settings : SPISettings)
| EvWriteBytes (data : list Z) (size : Z)
| EvEndTransaction.

(** ** The controller object *)

Record Controller : Type := mkController {
  hspi : option SPIClass;          (* nullptr is None *)
  led_data : option (list Z);      (* nullptr, or the owned heap block *)
  mSize : Z
}.

Definition mOne : Z := 0xf8.
Definition mZero : Z := 0x80.

(** A freshly constructed controller: the member initialisers. *)
Definition new_controller : Controller :=
  {| hspi := None; led_data := None; mSize := 0 |}.

Definition set_hspi (p : option SPIClass) (self : Controller) : Controller :=
  {| hspi := p; led_data := led_data self; mSize := mSize self |}.
Definition set_led_data (p : option (list Z)) (self : Controller) : Controller :=
  {| hspi := hspi self; led_data := p; mSize := mSize self |}.
Definition set_mSize (n : Z) (self : Controller) : Controller :=
  {| hspi := hspi self; led_data := led_data self; mSize := n |}.

(** ** The pixel source *)

(** Modelled from the spec: the pixel controller is declared outside this
    header.  It reports a pixel count through [size()], tells through
    [has(1)] whether a pixel remains, and yields the three scaled bytes of
    the current pixel in the configured colour order; [advanceData] and
    [stepDithering] move it to the next pixel.  The scaled bytes the cursor
    will yield are kept as a list of triples. *)
Definition Pixel : Type := (Z * Z * Z)%type.

Record PixelController : Type := mkPixelController {
  mLen : Z;
  mPending : list Pixel
}.

Definition size (pixels : PixelController) : Z := mLen pixels.
Definition loadAndScale0 (p : Pixel) : Z := p.1.1.
Definition loadAndScale1 (p : Pixel) : Z := p.1.2.
Definition loadAndScale2 (p : Pixel) : Z := p.2.

(** A pixel controller over a strip of [length px] pixels, positioned at
    its first pixel. *)
Definition pixels_of (px : list Pixel) : PixelController :=
  {| mLen := Z.of_nat (length px); mPending := px |}.

(** ** The execution monad *)

Inductive Fault : Set := NullDereference | OutOfBounds.

Inductive outcome (A : Type) : Type :=
| Done (a : A) (self : Controller) (log : list Event)
| Undefined (f : Fault) (self : Controller) (log : list Event).
Arguments Done {A} a self log.
Arguments Undefined {A} f self log.

Definition M (A : Type) : Type := Controller -> list Event -> outcome A.

Definition ret {A} (a : A) : M A := fun self log => Done a self log.

Definition bind {A B} (m : M A) (k : A -> M B) : M B :=
  fun self log =>
    match m self log with
    | Done a self' log' => k a self' log'
    | Undefined f self' log' => Undefined f self' log'
    end.

Notation "x <- m ;; k" := (bind m (fun x => k))
  (at level 100, m at next level, right associativity).
Notation "m ;; k" := (bind m (fun _ => k))
  (at level 100, right associativity).

Definition undefined {A} (f : Fault) : M A := fun self log => Undefined f self log.
Definition read {A} (field : Controller -> A) : M A :=
  fun self log => Done (field self) self log.
Definition modify (g : Controller -> Controller) : M unit :=
  fun self log => Done tt (g self) log.
Definition emit (e : Event) : M unit :=
  fun self log => Done tt self (log ++ [e]).

(** Signed [int] arithmetic, as the compiled code performs it: a result
    outside the range wraps around and execution carries on. *)
Definition int_ (z : Z) : M Z := ret (to_int z).

(** [free(p)] on a non-null pointer. *)
Definition free : M unit := emit EvFree.

(** [malloc(bytes)]: the allocator either fails ([heap = None], a null
    pointer) or hands out a block of [bytes] bytes whose initial content
    [g] is whatever the heap held. *)
Definition malloc (bytes : Z) (heap : option (nat -> Z)) : M (option (list Z)) :=
  match heap with
  | None => emit (EvMalloc bytes false) ;; ret None
  | Some g => emit (EvMalloc bytes true) ;;
              ret (Some (map g (seq 0 (Z.to_nat bytes))))
  end.

(** [led_data[i] = v]. *)
Definition store (i v : Z) : M unit :=
  p <- read led_data ;;
  match p with
  | None => undefined NullDereference
  | Some block =>
      if (0 <=? i) && (i <? Z.of_nat (length block))
      then modify (set_led_data (Some (<[Z.to_nat i := v]> block)))
      else undefined OutOfBounds
  end.

(** [led_data[cur++] = v]; yields the incremented cursor. *)
Definition store_inc (cur v : Z) : M Z :=
  store cur v ;; int_ (cur + 1).

(** [for (int i = from; i < to; ++i) body(i)]. *)
Fixpoint for_steps (n : nat) (i : Z) (body : Z -> M unit) : M unit :=
  match n with
  | O => ret tt
  | S n' => body i ;; i' <- int_ (i + 1) ;; for_steps n' i' body
  end.
Definition for_ (from to : Z) (body : Z -> M unit) : M unit :=
  for_steps (Z.to_nat (to - from)) from body.

(** The bus calls go through [hspi]. *)
Definition via_hspi (e : Event) : M unit :=
  p <- read hspi ;;
  match p with
  | None => undefined NullDereference
  | Some _ => emit e
  end.

Definition beginTransaction (settings : SPISettings) : M unit :=
  via_hspi (EvBeginTransaction settings).
Definition endTransaction : M unit := via_hspi EvEndTransaction.

(** [hspi->writeBytes(led_data, size)]: the bus shifts out the first
    [size] bytes found at [led_data]. *)
Definition writeBytes (size : Z) : M unit :=
  p <- read led_data ;;
  match p with
  | None =>
      if size =? 0 then via_hspi (EvWriteBytes [] 0)
      else undefined NullDereference
  | Some block =>
      if (0 <=? size) && (size <=? Z.of_nat (length block))
      then via_hspi (EvWriteBytes (take (Z.to_nat size) block) size)
      else undefined OutOfBounds
  end.

(** ** The controller's methods *)

Definition init : M unit :=
  emit (EvNewSPI HSPI) ;;
  modify (set_hspi (Some (mkSPIClass HSPI))) ;;
  via_hspi EvSPIBegin.

Definition getMaxRefreshRate (cfg : Template) (self : Controller) : Z := 400.

Section ShowPixels.

(** [sizeof(rmt_data_t)]: the type is declared by the platform's RMT
    driver, so its size is a parameter (at least one byte). *)
Variable sizeof_rmt_data_t : positive.

(** The body of [while (pixels.has(1))], iterated over the pixels the
    cursor still holds. *)
Fixpoint encode_loop (pending : list Pixel) (cur : Z) : M Z :=
  match pending with
  | [] => ret cur
  | p :: rest =>
      let byte := loadAndScale0 p in
      cur <- store_inc cur (if truthy (Z.land byte 0x80) then mOne else mZero) ;;
      cur <- store_inc cur (if truthy (Z.land byte 0x40) then mOne else mZero) ;;
      cur <- store_inc cur (if truthy (Z.land byte 0x20) then mOne else mZero) ;;
      cur <- store_inc cur (if truthy (Z.land byte 0x10) then mOne else mZero) ;;
      cur <- store_inc cur (if truthy (Z.land byte 0x08) then mOne else mZero) ;;
      cur <- store_inc cur (if truthy (Z.land byte 0x04) then mOne else mZero) ;;
      cur <- store_inc cur (if truthy (Z.land byte 0x02) then mOne else mZero) ;;
      cur <- store_inc cur (if truthy (Z.land byte 0x01) then mOne else mZero) ;;
      let byte := loadAndScale1 p in
      cur <- store_inc cur (if truthy (Z.land byte 0x80) then mOne else mZero) ;;
      cur <- store_inc cur (if truthy (Z.land byte 0x40) then mOne else mZero) ;;
      cur <- store_inc cur (if truthy (Z.land byte 0x20) then mOne else mZero) ;;
      cur <- store_inc cur (if truthy (Z.land byte 0x10) then mOne else mZero) ;;
      cur <- store_inc cur (if truthy (Z.land byte 0x08) then mOne else mZero) ;;
      cur <- store_inc cur (if truthy (Z.land byte 0x04) then mOne else mZero) ;;
      cur <- store_inc cur (if truthy (Z.land byte 0x02) then mOne else mZero) ;;
      cur <- store_inc cur (if truthy (Z.land byte 0x01) then mOne else mZero) ;;
      let byte := loadAndScale2 p in
      cur <- store_inc cur (if truthy (Z.land byte 0x80) then mOne else mZero) ;;
      cur <- store_inc cur (if truthy (Z.land byte 0x40) then mOne else mZero) ;;
      cur <- store_inc cur (if truthy (Z.land byte 0x20) then mOne else mZero) ;;
      cur <- store_inc cur (if truthy (Z.land byte 0x10) then mOne else mZero) ;;
      cur <- store_inc cur (if truthy (Z.land byte 0x08) then mOne else mZero) ;;
      cur <- store_inc cur (if truthy (Z.land byte 0x04) then mOne else mZero) ;;
      cur <- store_inc cur (if truthy (Z.land byte 0x02) then mOne else mZero) ;;
      cur <- store_inc cur (if truthy (Z.land byte 0x01) then mOne else mZero) ;;
      (* pixels.advanceData(); pixels.stepDithering(); *)
      encode_loop rest cur
  end.

Definition showPixels (pixels : PixelController) (heap : option (nat -> Z))
  : M unit :=
  let RESET_LENGTH := 10 in
  a <- int_ (size pixels * 3) ;;
  b <- int_ (a * 8) ;;
  size_needed <- int_ (b + RESET_LENGTH) ;;
  current <- read mSize ;;
  (if negb (size_needed =? current) then
     p <- read led_data ;;
     (match p with Some _ => free | None => ret tt end) ;;
     modify (set_mSize size_needed) ;;
     n <- read mSize ;;
     block <- malloc (to_size_t (to_size_t n * Z.pos sizeof_rmt_data_t)) heap ;;
     modify (set_led_data block) ;;
     from <- int_ (size_needed - RESET_LENGTH) ;;
     for_ from size_needed (fun i => store i 0)
   else ret tt) ;;
  cur <- encode_loop (mPending pixels) 0 ;;
  let settings := mkSPISettings 6400000 MSBFIRST SPI_MODE0 in
  beginTransaction settings ;;
  writeBytes cur ;;
  endTransaction.

End ShowPixels.

(** ** Derived views used in the statements *)

(** The eight symbol bytes the loop body writes for one scaled byte, in
    the order it writes them. *)
Definition encode (byte : Z) : list Z :=
  [ if truthy (Z.land byte 0x80) then mOne else mZero;
    if truthy (Z.land byte 0x40) then mOne else mZero;
    if truthy (Z.land byte 0x20) then mOne else mZero;
    if truthy (Z.land byte 0x10) then mOne else mZero;
    if truthy (Z.land byte 0x08) then mOne else mZero;
    if truthy (Z.land byte 0x04) then mOne else mZero;
    if truthy (Z.land byte 0x02) then mOne else mZero;
    if truthy (Z.land byte 0x01) then mOne else mZero ].

Definition encode_pixel (p : Pixel) : list Z :=
  encode (loadAndScale0 p) ++ encode (loadAndScale1 p) ++ encode (loadAndScale2 p).

Fixpoint encode_all (px : list Pixel) : list Z :=
  match px with
  | [] => []
  | p :: rest => encode_pixel p ++ encode_all rest
  end.

(** A run of [led_data[cur++] = v] statements. *)
Fixpoint put_many (vs : list Z) (cur : Z) : M Z :=
  match vs with
  | [] => ret cur
  | v :: vs' => cur' <- store_inc cur v ;; put_many vs' cur'
  end.

Definition RESET_LENGTH : Z := 10.

(** The size in bytes a strip of [n] pixels needs. *)
Definition size_needed (n : nat) : Z := Z.of_nat n * 3 * 8 + RESET_LENGTH.

(** The frame buffer: the first [mSize] bytes behind [led_data]. *)
Definition frame_buffer (self : Controller) : list Z :=
  match led_data self with
  | Some block => take (Z.to_nat (mSize self)) block
  | None => []
  end.

(** The strip sizes the machine can represent: the size is an [int] and
    the byte count handed to [malloc] is a [size_t]. *)
Definition fits (sizeof_rmt_data_t : positive) (n : nat) : Prop :=
  size_needed n <= INT_MAX /\ size_needed n * Z.pos sizeof_rmt_data_t <= SIZE_MAX.

(** The invariant of an initialised controller between drive cycles. *)
Definition ready (self : Controller) : Prop :=
  hspi self <> None /\
  match led_data self with
  | None => mSize self = 0
  | Some block =>
      RESET_LENGTH <= mSize self <= INT_MAX /\
      mSize self <= Z.of_nat (length block) /\
      take 10 (drop (Z.to_nat (mSize self - RESET_LENGTH)) block) = replicate 10 0
  end.

(** Allocator and bus calls in a log. *)
Definition is_malloc (e : Event) : bool :=
  match e with EvMalloc _ _ => true | _ => false end.
Definition is_bus (e : Event) : bool :=
  match e with
  | EvBeginTransaction _ | EvWriteBytes _ _ | EvEndTransaction => true
  | _ => false
  end.
Definition reallocations (log : list Event) : nat :=
  length (List.filter is_malloc log).

(** Linear arithmetic over the machine's integer bounds. *)
Ltac bounds :=
  unfold INT_MIN, INT_MAX, SIZE_MAX, RESET_LENGTH in *; lia.

(** The statements of one pass through the body, followed by [k]. *)
Fixpoint put_then {A} (vs : list Z) (cur : Z) (k : Z -> M A) : M A :=
  match vs with
  | [] => k cur
  | v :: vs' => cur' <- store_inc cur v ;; put_then vs' cur' k
  end.

(** The allocator calls of a cycle for [n] pixels entered in state [self]. *)
Definition alloc_calls (sizeof_rmt_data_t : positive) (self : Controller)
    (n : nat) : list Event :=
  if size_needed n =? mSize self then []
  else match led_data self with Some _ => [EvFree] | None => [] end
       ++ [EvMalloc (size_needed n * Z.pos sizeof_rmt_data_t) true].

(** The block the encoding loop of such a cycle starts from, up to its
    reset tail: the one already owned, or the fresh one. *)
Definition base_block (sizeof_rmt_data_t : positive) (self : Controller)
    (n : nat) (heap : option (nat -> Z)) : list Z :=
  if size_needed n =? mSize self then default [] (led_data self)
  else match heap with
       | Some g =>
           map g (seq 0 (Z.to_nat (size_needed n * Z.pos sizeof_rmt_data_t)))
       | None => []
       end.

Definition bus_calls (data : list Z) (size : Z) : list Event :=
  [ EvBeginTransaction (mkSPISettings 6400000 MSBFIRST SPI_MODE0);
    EvWriteBytes data size;
    EvEndTransaction ].

(** The controller once [init] has run. *)
Definition initialised : Controller :=
  {| hspi := Some (mkSPIClass HSPI); led_data := None; mSize := 0 |}.

Definition symbol (bit : bool) : Z := if bit then mOne else mZero.

(** The scaled byte of channel [c] of a pixel. *)
Definition channel (p : Pixel) (c : nat) : Z :=
  match c with
  | O => loadAndScale0 p
  | S O => loadAndScale1 p
  | _ => loadAndScale2 p
  end.

(** The inverse reading of a symbol stream: a symbol byte stands for the
    bit 1 when it is the one-pattern, for the bit 0 when it is the
    zero-pattern; eight bits, most significant first, make one byte. *)
Definition decode_symbol (s : Z) : option Z :=
  if s =? mOne then Some 1 else if s =? mZero then Some 0 else None.

Fixpoint decode_bits (acc : Z) (syms : list Z) : option Z :=
  match syms with
  | [] => Some acc
  | s :: rest =>
      match decode_symbol s with
      | Some bit => decode_bits (2 * acc + bit) rest
      | None => None
      end
  end.

Definition decode_byte (syms : list Z) : option Z := decode_bits 0 syms.

Fixpoint decode (count : nat) (syms : list Z) : option (list Z) :=
  match count with
  | O => Some []
  | S count' =>
      match decode_byte (take 8 syms), decode count' (drop 8 syms) with
      | Some b, Some bs => Some (b :: bs)
      | _, _ => None
      end
  end.

Definition decode_stream (syms : list Z) : option (list Z) :=
  decode (length syms / 8) syms.

(** The scaled bytes a strip yields, channel 0, 1, 2 of each pixel. *)
Definition scaled_bytes (px : list Pixel) : list Z :=
  flat_map (fun p => [loadAndScale0 p; loadAndScale1 p; loadAndScale2 p]) px.

Definition is_byte (z : Z) : Prop := 0 <= z < 256.

Definition pixel_bytes (p : Pixel) : Prop :=
  is_byte (loadAndScale0 p) /\ is_byte (loadAndScale1 p) /\ is_byte (loadAndScale2 p).

(** A requested cycle: the strip to show and the allocator's answer, should
    the cycle ask for memory. *)
Definition cycle : Type := (list Pixel * option (nat -> Z))%type.

(** Run the cycles in order, recording for each the controller it started
    from and its outcome; an undefined cycle ends the run. *)
Fixpoint drive (sizeof_rmt_data_t : positive) (cycles : list cycle)
    (self : Controller) : list (Controller * outcome unit) :=
  match cycles with
  | [] => []
  | (px, heap) :: rest =>
      let out := showPixels sizeof_rmt_data_t (pixels_of px) heap self [] in
      (self, out) ::
        match out with
        | Done _ self' _ => drive sizeof_rmt_data_t rest self'
        | Undefined _ _ _ => []
        end
  end.

Definition feasible (sizeof_rmt_data_t : positive) (c : cycle) : Prop :=
  fits sizeof_rmt_data_t (length c.1) /\ c.2 <> None.

Definition strip1 : list Pixel := [(0xFF, 0x00, 0x81)].
Definition strip2 : list Pixel := [(0x12, 0x34, 0x56); (0x00, 0x80, 0x01)].
Definition strip1b : list Pixel := [(0xFF, 0x00, 0x80)].
Definition stale : nat -> Z := fun _ => 0xAA.

Definition three_cycles : list cycle :=
  [ (strip1, Some stale); (strip1, Some stale); (strip2, Some stale) ].

(** Calls to [free] in a log, and the buffers a controller owns. *)
Definition is_free (e : Event) : bool :=
  match e with EvFree => true | _ => false end.
Definition frees (log : list Event) : nat :=
  length (List.filter is_free log).
Definition owned (self : Controller) : nat :=
  match led_data self with Some _ => 1%nat | None => 0%nat end.

(** The calls made over a whole run of cycles, in order. *)
Definition outcome_log {A} (out : outcome A) : list Event :=
  match out with
  | Done _ _ log => log
  | Undefined _ _ log => log
  end.
Definition run_log (runs : list (Controller * outcome unit)) : list Event :=
  flat_map (fun r => outcome_log r.2) runs.

(** The controller an outcome leaves behind. *)
Definition outcome_self {A} (out : outcome A) : Controller :=
  match out with
  | Done _ self _ => self
  | Undefined _ self _ => self
  end.

(** The frame buffer as the capacity step of a cycle for [n] pixels leaves
    it, before the encoding loop runs. *)
Definition prepared_block (sizeof_rmt_data_t : positive) (self : Controller)
    (n : nat) (heap : option (nat -> Z)) : list Z :=
  let base := base_block sizeof_rmt_data_t self n heap in
  take (24 * n) base ++ replicate 10 0 ++ drop (24 * n + 10) base.

(** The block the encoding loop of a cycle for [n] pixels writes into: the
    one already owned when the size is unchanged, the prepared fresh one
    otherwise. *)
Definition working_block (sizeof_rmt_data_t : positive) (self : Controller)
    (n : nat) (heap : option (nat -> Z)) : list Z :=
  if size_needed n =? mSize self then default [] (led_data self)
  else prepared_block sizeof_rmt_data_t self n heap.

(** The allocator calls one cycle may make: none, one [malloc] when no
    buffer was owned, or one [free] then one [malloc] when one was. *)
Definition alloc_shape (self : Controller) (calls : list Event) : Prop :=
  calls = []
  \/ (exists bytes ok, calls = [EvMalloc bytes ok] /\ led_data self = None)
  \/ (exists bytes ok, calls = [EvFree; EvMalloc bytes ok]
                      /\ led_data self <> None).

(** The bus calls one cycle may make: none, an opened transaction whose
    write was undefined, or a transaction opened, written once and closed. *)
Definition bus_shape (calls : list Event) : Prop :=
  calls = []
  \/ calls = [EvBeginTransaction (mkSPISettings 6400000 MSBFIRST SPI_MODE0)]
  \/ (exists data size,
        calls = [ EvBeginTransaction (mkSPISettings 6400000 MSBFIRST SPI_MODE0);
                  EvWriteBytes data size;
                  EvEndTransaction ]).

(** A computation that makes no call and leaves [hspi] alone, however it
    ends. *)
Definition quiet {A} (m : M A) : Prop :=
  forall self log,
    outcome_log (m self log) = log
    /\ hspi (outcome_self (m self log)) = hspi self.

(** A controller whose last allocation failed while asking for [m] bytes. *)
Definition after_failure (m : Z) : Controller :=
  {| hspi := Some (mkSPIClass HSPI); led_data := None; mSize := m |}.

(** Evaluate the run on the left of an equation. *)
Ltac run :=
  match goal with
  | |- ?lhs = _ =>
      let r := eval vm_compute in lhs in
      transitivity r; [vm_compute; reflexivity | reflexivity]
  end.

(** * Properties *)

(** ** The monad's primitives *)

Lemma set_led_data_same self block :
  led_data self = Some block -> set_led_data (Some block) self = self.
Proof. destruct self; simpl; intros ->; reflexivity. Qed.

Lemma int_ok z self log :
  INT_MIN <= z <= INT_MAX -> int_ z self log = Done z self log.
Proof.
  intros [Hl Hu]. unfold int_, ret, to_int.
  rewrite Z.mod_small by (unfold INT_MIN, INT_MAX in *; lia).
  f_equal. lia.
Qed.

Lemma store_ok self log block i v :
  led_data self = Some block ->
  0 <= i < Z.of_nat (length block) ->
  store i v self log
  = Done tt (set_led_data (Some (<[Z.to_nat i := v]> block)) self) log.
Proof.
  intros Hb [Hl Hu]. unfold store, bind, read. rewrite Hb.
  apply Z.leb_le in Hl. apply Z.ltb_lt in Hu. rewrite Hl, Hu. reflexivity.
Qed.

Lemma store_null self log i v :
  led_data self = None -> store i v self log = Undefined NullDereference self log.
Proof. intros Hb. unfold store, bind, read. rewrite Hb. reflexivity. Qed.

Lemma store_inc_ok self log block cur v :
  led_data self = Some block ->
  0 <= cur < Z.of_nat (length block) ->
  cur + 1 <= INT_MAX ->
  store_inc cur v self log
  = Done (cur + 1) (set_led_data (Some (<[Z.to_nat cur := v]> block)) self) log.
Proof.
  intros Hb Hr Hm. unfold store_inc, bind.
  rewrite (store_ok _ _ block) by assumption.
  apply int_ok. unfold INT_MIN. lia.
Qed.

Lemma insert_splice (block : list Z) (c : nat) (v : Z) (vs : list Z) :
  (c < length block)%nat ->
  take (S c) (<[c := v]> block) ++ vs ++ drop (S c + length vs) (<[c := v]> block)
  = take c block ++ (v :: vs) ++ drop (c + length (v :: vs)) block.
Proof.
  intros Hc.
  rewrite drop_insert_lt by lia.
  assert (Ht : take (S c) (<[c := v]> block) = take c block ++ [v]).
  { rewrite (insert_take_drop block c v Hc).
    change (take c block ++ v :: drop (S c) block)
      with (take c block ++ [v] ++ drop (S c) block).
    rewrite app_assoc. apply take_app_length'.
    rewrite length_app, length_take_le by lia. simpl. lia. }
  rewrite Ht, <- app_assoc. simpl.
  replace (S (c + length vs)) with (c + S (length vs))%nat by lia.
  reflexivity.
Qed.

Lemma put_many_ok vs : forall cur self log block,
  led_data self = Some block ->
  0 <= cur ->
  cur + Z.of_nat (length vs) <= Z.of_nat (length block) ->
  cur + Z.of_nat (length vs) <= INT_MAX ->
  put_many vs cur self log
  = Done (cur + Z.of_nat (length vs))
      (set_led_data
         (Some (take (Z.to_nat cur) block ++ vs
                  ++ drop (Z.to_nat cur + length vs) block)) self) log.
Proof.
  induction vs as [|v vs IH]; intros cur self log block Hb Hc Hl Hm.
  - simpl. rewrite Z.add_0_r, Nat.add_0_r, take_drop.
    rewrite set_led_data_same by assumption. reflexivity.
  - simpl length in *. cbn [put_many]. unfold bind.
    rewrite (store_inc_ok _ _ block) by (assumption || lia).
    rewrite (IH _ _ _ (<[Z.to_nat cur := v]> block)).
    + f_equal; [lia|]. unfold set_led_data; simpl. do 2 f_equal.
      replace (Z.to_nat (cur + 1)) with (S (Z.to_nat cur)) by lia.
      apply insert_splice. lia.
    + reflexivity.
    + lia.
    + rewrite length_insert. lia.
    + lia.
Qed.

Lemma bind_Done {A B} (m : M A) (k : A -> M B) self log a self' log' :
  m self log = Done a self' log' -> bind m k self log = k a self' log'.
Proof. intros H. unfold bind. rewrite H. reflexivity. Qed.

Lemma bind_Undefined {A B} (m : M A) (k : A -> M B) self log f self' log' :
  m self log = Undefined f self' log' ->
  bind m k self log = Undefined f self' log'.
Proof. intros H. unfold bind. rewrite H. reflexivity. Qed.

Lemma via_hspi_ok e self log :
  hspi self <> None -> via_hspi e self log = Done tt self (log ++ [e]).
Proof.
  intros H. unfold via_hspi, bind, read.
  destruct (hspi self); [reflexivity | contradiction].
Qed.

Lemma writeBytes_ok self log block n :
  hspi self <> None ->
  led_data self = Some block ->
  0 <= n <= Z.of_nat (length block) ->
  writeBytes n self log
  = Done tt self (log ++ [EvWriteBytes (take (Z.to_nat n) block) n]).
Proof.
  intros Hh Hb [Hl Hu]. unfold writeBytes, bind, read. rewrite Hb.
  apply Z.leb_le in Hl, Hu. rewrite Hl, Hu. simpl.
  apply via_hspi_ok. assumption.
Qed.

Lemma malloc_ok bytes g self log :
  malloc bytes (Some g) self log
  = Done (Some (map g (seq 0 (Z.to_nat bytes)))) self (log ++ [EvMalloc bytes true]).
Proof. reflexivity. Qed.

Lemma malloc_null bytes self log :
  malloc bytes None self log = Done None self (log ++ [EvMalloc bytes false]).
Proof. reflexivity. Qed.

(** ** The two loops *)

Lemma for_zero_ok n : forall i self log block,
  led_data self = Some block ->
  0 <= i ->
  i + Z.of_nat n <= Z.of_nat (length block) ->
  i + Z.of_nat n <= INT_MAX ->
  for_steps n i (fun i => store i 0) self log
  = Done tt
      (set_led_data
         (Some (take (Z.to_nat i) block ++ replicate n 0
                  ++ drop (Z.to_nat i + n) block)) self) log.
Proof.
  induction n as [|n IH]; intros i self log block Hb Hi Hl Hm.
  - simpl. rewrite Nat.add_0_r, take_drop.
    rewrite set_led_data_same by assumption. reflexivity.
  - cbn [for_steps].
    rewrite (bind_Done _ _ _ _ _ _ _ (store_ok _ _ block i 0 Hb ltac:(lia))).
    rewrite (bind_Done _ _ _ _ _ _ _ (int_ok (i + 1) _ _ ltac:(unfold INT_MIN; lia))).
    rewrite (IH _ _ _ (<[Z.to_nat i := 0]> block)).
    + unfold set_led_data; simpl. do 3 f_equal.
      replace (Z.to_nat (i + 1)) with (S (Z.to_nat i)) by lia.
      rewrite <- (length_replicate n 0) at 2 4.
      rewrite (insert_splice block (Z.to_nat i) 0 (replicate n 0)) by lia.
      reflexivity.
    + reflexivity.
    + lia.
    + rewrite length_insert. lia.
    + lia.
Qed.

Lemma put_then_bind {A} (k : Z -> M A) vs : forall cur self log,
  put_then vs cur k self log = bind (put_many vs cur) k self log.
Proof.
  induction vs as [|v vs IH]; intros cur self log; [reflexivity|].
  cbn [put_then put_many]. unfold bind at 1 2 3.
  destruct (store_inc cur v self log) as [c s l|f s l]; [|reflexivity].
  apply IH.
Qed.

Lemma encode_loop_cons p rest cur :
  encode_loop (p :: rest) cur = put_then (encode_pixel p) cur (encode_loop rest).
Proof. reflexivity. Qed.

Lemma length_encode_all px : length (encode_all px) = (24 * length px)%nat.
Proof. induction px as [|p px IH]; simpl; lia. Qed.

Lemma encode_loop_ok px : forall cur self log block,
  led_data self = Some block ->
  0 <= cur ->
  cur + 24 * Z.of_nat (length px) <= Z.of_nat (length block) ->
  cur + 24 * Z.of_nat (length px) <= INT_MAX ->
  encode_loop px cur self log
  = Done (cur + 24 * Z.of_nat (length px))
      (set_led_data
         (Some (take (Z.to_nat cur) block ++ encode_all px
                  ++ drop (Z.to_nat cur + 24 * length px) block)) self) log.
Proof.
  induction px as [|p px IH]; intros cur self log block Hb Hc Hl Hm.
  - simpl. rewrite Z.add_0_r, Nat.add_0_r, take_drop.
    rewrite set_led_data_same by assumption. reflexivity.
  - rewrite encode_loop_cons, put_then_bind.
    simpl length in *.
    assert (Hlen : length (encode_pixel p) = 24%nat) by reflexivity.
    rewrite (bind_Done _ _ _ _ _ _ _
               (put_many_ok (encode_pixel p) cur self log block Hb Hc
                  ltac:(rewrite Hlen; lia) ltac:(rewrite Hlen; lia))).
    rewrite Hlen.
    set (block' := take (Z.to_nat cur) block ++ encode_pixel p
                     ++ drop (Z.to_nat cur + 24) block).
    assert (Hlb : length block' = length block).
    { unfold block'. rewrite !length_app, length_take_le, length_drop, Hlen; lia. }
    rewrite (IH _ _ _ block') by (reflexivity || rewrite ?Hlb; lia).
    f_equal; [lia|]. unfold set_led_data; cbn [hspi led_data mSize]. do 2 f_equal.
    replace (Z.to_nat (cur + Z.of_nat 24)) with (Z.to_nat cur + 24)%nat by lia.
    assert (Ht : take (Z.to_nat cur + 24) block'
                 = take (Z.to_nat cur) block ++ encode_pixel p).
    { unfold block'. rewrite app_assoc. apply take_app_length'.
      rewrite length_app, length_take_le, Hlen; lia. }
    assert (Hd : drop (Z.to_nat cur + 24 + 24 * length px) block'
                 = drop (Z.to_nat cur + 24 * S (length px)) block).
    { unfold block'. rewrite app_assoc.
      rewrite drop_app_ge by (rewrite length_app, length_take_le, Hlen; lia).
      rewrite length_app, length_take_le, Hlen, drop_drop by lia.
      f_equal. lia. }
    rewrite Ht, Hd, <- !app_assoc. reflexivity.
Qed.

(** ** One drive cycle *)

Lemma bind_read {A B} (field : Controller -> A) (k : A -> M B) self log :
  bind (read field) k self log = k (field self) self log.
Proof. reflexivity. Qed.

Lemma bind_modify {B} g (k : unit -> M B) self log :
  bind (modify g) k self log = k tt (g self) log.
Proof. reflexivity. Qed.

Lemma bind_emit {B} e (k : unit -> M B) self log :
  bind (emit e) k self log = k tt self (log ++ [e]).
Proof. reflexivity. Qed.

Lemma bind_ret {A B} (a : A) (k : A -> M B) self log :
  bind (ret a) k self log = k a self log.
Proof. reflexivity. Qed.

Lemma size_needed_bounds n :
  size_needed n <= INT_MAX ->
  0 <= Z.of_nat n * 3 <= INT_MAX /\ 0 <= Z.of_nat n * 3 * 8 <= INT_MAX /\
  RESET_LENGTH <= size_needed n /\ size_needed n - RESET_LENGTH = 24 * Z.of_nat n.
Proof. unfold size_needed, RESET_LENGTH, INT_MAX. lia. Qed.

Lemma malloc_size sizeof_rmt_data_t n :
  fits sizeof_rmt_data_t n ->
  to_size_t (to_size_t (size_needed n) * Z.pos sizeof_rmt_data_t)
  = size_needed n * Z.pos sizeof_rmt_data_t
  /\ size_needed n <= size_needed n * Z.pos sizeof_rmt_data_t.
Proof.
  intros [Hi Hs]. destruct (size_needed_bounds n Hi) as (_ & _ & Hr & _).
  unfold RESET_LENGTH in Hr.
  assert (Hle : size_needed n <= size_needed n * Z.pos sizeof_rmt_data_t) by nia.
  split; [|exact Hle]. unfold to_size_t, SIZE_MAX in *.
  rewrite (Z.mod_small (size_needed n)) by lia.
  apply Z.mod_small. lia.
Qed.

Lemma reallocate_ok sizeof_rmt_data_t self log n g :
  fits sizeof_rmt_data_t n ->
  let fresh :=
    map g (seq 0 (Z.to_nat (size_needed n * Z.pos sizeof_rmt_data_t))) in
  (p <- read led_data ;;
   (match p with Some _ => free | None => ret tt end) ;;
   modify (set_mSize (size_needed n)) ;;
   m <- read mSize ;;
   block <- malloc (to_size_t (to_size_t m * Z.pos sizeof_rmt_data_t)) (Some g) ;;
   modify (set_led_data block) ;;
   from <- int_ (size_needed n - 10) ;;
   for_ from (size_needed n) (fun i => store i 0)) self log
  = Done tt
      {| hspi := hspi self;
         led_data := Some (take (24 * n) fresh ++ replicate 10 0
                             ++ drop (24 * n + 10) fresh);
         mSize := size_needed n |}
      (log ++ match led_data self with Some _ => [EvFree] | None => [] end
           ++ [EvMalloc (size_needed n * Z.pos sizeof_rmt_data_t) true]).
Proof.
  intros Hfit fresh.
  destruct (malloc_size _ _ Hfit) as [Hsz Hle].
  destruct Hfit as [Hi Hs].
  destruct (size_needed_bounds n Hi) as (_ & _ & Hr & Hfrom).
  unfold RESET_LENGTH in *.
  rewrite bind_read.
  assert (Hfree : forall {B} (k : unit -> M B),
    bind (match led_data self with Some _ => free | None => ret tt end) k self log
    = k tt self (log ++ match led_data self with Some _ => [EvFree] | None => [] end)).
  { intros B k. destruct (led_data self); [reflexivity|].
    rewrite bind_ret, app_nil_r. reflexivity. }
  rewrite Hfree, bind_modify, bind_read. cbn [set_mSize mSize].
  rewrite Hsz, (bind_Done _ _ _ _ _ _ _ (malloc_ok _ g _ _)).
  fold fresh. rewrite bind_modify.
  rewrite (bind_Done _ _ _ _ _ _ _
             (int_ok (size_needed n - 10) _ _ ltac:(unfold INT_MIN; lia))).
  unfold for_. replace (Z.to_nat (size_needed n - (size_needed n - 10))) with 10%nat by lia.
  assert (Hlen : Z.of_nat (length fresh) = size_needed n * Z.pos sizeof_rmt_data_t).
  { unfold fresh. rewrite length_map, length_seq. lia. }
  rewrite (for_zero_ok 10 _ _ _ fresh) by (reflexivity || lia).
  unfold set_led_data; cbn [hspi led_data mSize].
  rewrite <- app_assoc.
  replace (Z.to_nat (size_needed n - 10)) with (24 * n)%nat by lia.
  reflexivity.
Qed.

Lemma encode_and_send_ok self log block px :
  hspi self <> None ->
  led_data self = Some block ->
  24 * Z.of_nat (length px) <= Z.of_nat (length block) ->
  24 * Z.of_nat (length px) <= INT_MAX ->
  (cur <- encode_loop px 0 ;;
   beginTransaction (mkSPISettings 6400000 MSBFIRST SPI_MODE0) ;;
   writeBytes cur ;;
   endTransaction) self log
  = Done tt
      (set_led_data (Some (encode_all px ++ drop (24 * length px) block)) self)
      (log ++ bus_calls (encode_all px) (24 * Z.of_nat (length px))).
Proof.
  intros Hh Hb Hl Hm.
  rewrite (bind_Done _ _ _ _ _ _ _
             (encode_loop_ok px 0 self log block Hb ltac:(lia) ltac:(lia) ltac:(lia))).
  change (Z.to_nat 0) with 0%nat. rewrite take_0. cbn [app Nat.add].
  set (self' := set_led_data _ self).
  assert (Hh' : hspi self' <> None) by exact Hh.
  unfold beginTransaction, endTransaction.
  rewrite (bind_Done _ _ _ _ _ _ _ (via_hspi_ok _ self' log Hh')).
  rewrite (bind_Done _ _ _ _ _ _ _
             (writeBytes_ok self' _ (encode_all px ++ drop (24 * length px) block)
                (0 + 24 * Z.of_nat (length px)) Hh' eq_refl
                ltac:(rewrite length_app, length_encode_all; lia))).
  rewrite via_hspi_ok by exact Hh'.
  replace (Z.to_nat (0 + 24 * Z.of_nat (length px)))
    with (length (encode_all px)) by (rewrite length_encode_all; lia).
  rewrite take_app_length, <- !app_assoc. reflexivity.
Qed.

Lemma ready_tail self block :
  ready self -> led_data self = Some block ->
  drop (Z.to_nat (mSize self - RESET_LENGTH)) block
  = replicate 10 0 ++ drop (Z.to_nat (mSize self - RESET_LENGTH) + 10) block.
Proof.
  intros [_ Hr] Hb. rewrite Hb in Hr. destruct Hr as (_ & _ & Hz).
  rewrite <- Hz, <- drop_drop. symmetry. apply take_drop.
Qed.

Lemma showPixels_ok sizeof_rmt_data_t self px heap log :
  ready self ->
  fits sizeof_rmt_data_t (length px) ->
  (size_needed (length px) <> mSize self -> heap <> None) ->
  showPixels sizeof_rmt_data_t (pixels_of px) heap self log
  = Done tt
      {| hspi := hspi self;
         led_data :=
           Some (encode_all px ++ replicate 10 0
                   ++ drop (24 * length px + 10)
                        (base_block sizeof_rmt_data_t self (length px) heap));
         mSize := size_needed (length px) |}
      (log ++ alloc_calls sizeof_rmt_data_t self (length px)
           ++ bus_calls (encode_all px) (24 * Z.of_nat (length px))).
Proof.
  intros Hready Hfit Hheap.
  destruct (malloc_size _ _ Hfit) as [Hsz Hle].
  pose proof Hfit as [Hi Hs].
  destruct (size_needed_bounds _ Hi) as (H3 & H8 & Hr & Hfrom).
  unfold showPixels. cbv zeta. unfold size, pixels_of. cbn [mLen mPending].
  rewrite (bind_Done _ _ _ _ _ _ _
             (int_ok (Z.of_nat (length px) * 3) _ _ ltac:(bounds))).
  rewrite (bind_Done _ _ _ _ _ _ _
             (int_ok (Z.of_nat (length px) * 3 * 8) _ _ ltac:(bounds))).
  change (Z.of_nat (length px) * 3 * 8 + 10) with (size_needed (length px)).
  rewrite (bind_Done _ _ _ _ _ _ _
             (int_ok (size_needed (length px)) _ _
                ltac:(bounds))).
  rewrite bind_read.
  unfold alloc_calls, base_block.
  destruct (Z.eqb_spec (size_needed (length px)) (mSize self)) as [Heq|Hne];
    cbn [negb].
  - rewrite bind_ret.
    destruct (led_data self) as [block|] eqn:Hb.
    2:{ destruct Hready as [_ Hz]. rewrite Hb in Hz.
        bounds. }
    pose proof (ready_tail _ _ Hready Hb) as Htail.
    destruct Hready as [Hh Hinv]. rewrite Hb in Hinv.
    destruct Hinv as (_ & Hlen & _).
    rewrite (encode_and_send_ok self log block px Hh Hb)
      by bounds.
    rewrite <- Heq, Hfrom in Htail.
    replace (Z.to_nat (24 * Z.of_nat (length px))) with (24 * length px)%nat
      in Htail by lia.
    rewrite Htail. unfold set_led_data; cbn [hspi led_data mSize default].
    rewrite <- Heq. reflexivity.
  - destruct heap as [g|]; [|exfalso; apply (Hheap Hne); reflexivity].
    rewrite (bind_Done _ _ _ _ _ _ _
               (reallocate_ok sizeof_rmt_data_t self log (length px) g Hfit)).
    set (fresh := map g (seq 0 _)).
    assert (Hlen : Z.of_nat (length fresh)
                   = size_needed (length px) * Z.pos sizeof_rmt_data_t).
    { unfold fresh. rewrite length_map, length_seq. bounds. }
    set (block := take (24 * length px) fresh ++ _).
    destruct Hready as [Hh _].
    set (self1 := mkController _ _ _).
    rewrite (encode_and_send_ok self1 _ block px Hh eq_refl).
    + unfold set_led_data; cbn [hspi led_data mSize].
      rewrite <- !app_assoc. do 3 f_equal.
      unfold block.
      rewrite drop_app_length' by (rewrite length_take_le; bounds).
      reflexivity.
    + unfold block.
      rewrite !length_app, length_take_le, length_replicate, length_drop
        by bounds.
      bounds.
    + bounds.
Qed.

Lemma init_ok :
  init new_controller [] = Done tt initialised [EvNewSPI HSPI; EvSPIBegin].
Proof. reflexivity. Qed.

Lemma ready_initialised : ready initialised.
Proof. split; [discriminate | reflexivity]. Qed.

(** What a drive cycle leaves behind, in one place. *)
Lemma cycle_summary sizeof_rmt_data_t self px heap :
  ready self ->
  fits sizeof_rmt_data_t (length px) ->
  (size_needed (length px) <> mSize self -> heap <> None) ->
  exists self' rest,
    showPixels sizeof_rmt_data_t (pixels_of px) heap self []
    = Done tt self'
        (alloc_calls sizeof_rmt_data_t self (length px)
           ++ bus_calls (encode_all px) (24 * Z.of_nat (length px)))
    /\ hspi self' = hspi self
    /\ mSize self' = size_needed (length px)
    /\ led_data self' = Some (encode_all px ++ replicate 10 0 ++ rest)
    /\ rest = drop (24 * length px + 10)
                (base_block sizeof_rmt_data_t self (length px) heap)
    /\ frame_buffer self' = encode_all px ++ replicate 10 0
    /\ ready self'.
Proof.
  intros Hready Hfit Hheap.
  pose proof (showPixels_ok sizeof_rmt_data_t self px heap [] Hready Hfit Hheap)
    as Hrun.
  rewrite app_nil_l in Hrun.
  set (rest := drop (24 * length px + 10) _) in *.
  set (self' := mkController _ _ _) in *.
  exists self', rest.
  assert (Hn : Z.to_nat (size_needed (length px)) = (24 * length px + 10)%nat)
    by (unfold size_needed, RESET_LENGTH; lia).
  assert (Hfb : frame_buffer self' = encode_all px ++ replicate 10 0).
  { unfold frame_buffer, self'; cbn [led_data mSize]. rewrite Hn, app_assoc.
    apply take_app_length'.
    rewrite length_app, length_encode_all, length_replicate. reflexivity. }
  repeat split; try assumption; try reflexivity.
  - apply Hready.
  - unfold self'; cbn [led_data mSize]. bounds.
  - unfold self'; cbn [led_data mSize]. destruct Hfit; assumption.
  - unfold self'; cbn [led_data mSize].
    rewrite !length_app, length_encode_all, length_replicate.
    unfold size_needed, RESET_LENGTH. lia.
  - unfold self'; cbn [led_data mSize].
    replace (Z.to_nat (size_needed (length px) - RESET_LENGTH))
      with (length (encode_all px))
      by (rewrite length_encode_all; unfold size_needed, RESET_LENGTH; lia).
    rewrite drop_app_length. apply take_app_length'.
    rewrite length_replicate. reflexivity.
Qed.

(** ** The symbols *)

Lemma land_pow2_testbit b k :
  0 <= k -> truthy (Z.land b (2 ^ k)) = Z.testbit b k.
Proof.
  intros Hk. unfold truthy.
  assert (H : Z.land b (2 ^ k) = if Z.testbit b k then 2 ^ k else 0).
  { apply Z.bits_inj'. intros i Hi. rewrite Z.land_spec, Z.pow2_bits_eqb by lia.
    destruct (Z.eqb_spec k i) as [->|Hne].
    - destruct (Z.testbit b i); rewrite ?Z.pow2_bits_true, ?Z.bits_0 by lia;
        reflexivity.
    - rewrite andb_false_r.
      destruct (Z.testbit b k); rewrite ?Z.pow2_bits_false, ?Z.bits_0 by lia;
        reflexivity. }
  rewrite H. destruct (Z.testbit b k); [|reflexivity].
  assert (0 < 2 ^ k) by (apply Z.pow_pos_nonneg; lia).
  destruct (Z.eqb_spec (2 ^ k) 0); [lia | reflexivity].
Qed.

Lemma encode_bits b :
  encode b = map (fun k => symbol (Z.testbit b k)) [7; 6; 5; 4; 3; 2; 1; 0].
Proof.
  unfold encode, symbol. cbn [map].
  change 0x80 with (2 ^ 7). change 0x40 with (2 ^ 6). change 0x20 with (2 ^ 5).
  change 0x10 with (2 ^ 4). change 0x08 with (2 ^ 3). change 0x04 with (2 ^ 2).
  change 0x02 with (2 ^ 1). change 0x01 with (2 ^ 0).
  rewrite !land_pow2_testbit by lia. reflexivity.
Qed.

Lemma encode_lookup b (i : nat) :
  (i < 8)%nat ->
  encode b !! i = Some (symbol (Z.testbit b (7 - Z.of_nat i))).
Proof.
  intros Hi. rewrite encode_bits.
  do 8 (destruct i as [|i]; [reflexivity|]). lia.
Qed.

Lemma encode_pixel_lookup p (c i : nat) :
  (c < 3)%nat -> (i < 8)%nat ->
  encode_pixel p !! (8 * c + i)%nat = encode (channel p c) !! i.
Proof.
  intros Hc Hi. unfold encode_pixel.
  destruct c as [|[|[|c]]]; [| | |lia]; cbn [channel].
  - rewrite lookup_app_l by (simpl; lia). reflexivity.
  - rewrite lookup_app_r by (simpl; lia).
    rewrite lookup_app_l by (simpl; lia). f_equal; simpl; lia.
  - rewrite lookup_app_r by (simpl; lia).
    rewrite lookup_app_r by (simpl; lia). f_equal; simpl; lia.
Qed.

Lemma encode_all_lookup px : forall (j : nat) p (k : nat),
  px !! j = Some p -> (k < 24)%nat ->
  encode_all px !! (24 * j + k)%nat = encode_pixel p !! k.
Proof.
  induction px as [|q px IH]; intros j p k Hj Hk; [discriminate|].
  cbn [encode_all]. destruct j as [|j].
  - injection Hj as ->. rewrite lookup_app_l by (simpl; lia). reflexivity.
  - rewrite lookup_app_r by (simpl; lia).
    replace (24 * S j + k - length (encode_pixel q))%nat with (24 * j + k)%nat
      by (simpl; lia).
    apply IH; assumption.
Qed.

Lemma symbol_cases bit : symbol bit = mOne \/ symbol bit = mZero.
Proof. destruct bit; [left | right]; reflexivity. Qed.

Lemma encode_symbols b : Forall (fun s => s = mOne \/ s = mZero) (encode b).
Proof.
  rewrite encode_bits. cbn [map].
  repeat (apply List.Forall_cons; [apply symbol_cases|]). apply List.Forall_nil.
Qed.

Lemma encode_all_symbols px :
  Forall (fun s => s = mOne \/ s = mZero) (encode_all px).
Proof.
  induction px as [|p px IH]; [constructor|].
  cbn [encode_all]. apply Forall_app. split; [|exact IH].
  unfold encode_pixel. rewrite !Forall_app.
  repeat split; apply encode_symbols.
Qed.

(** ** Decoding a symbol stream *)

Lemma below_256 (P : Z -> bool) :
  forallb P (map Z.of_nat (seq 0 256)) = true ->
  forall b, is_byte b -> P b = true.
Proof.
  intros Hall b [Hl Hu]. rewrite forallb_forall in Hall. apply Hall.
  apply in_map_iff. exists (Z.to_nat b). split; [lia|].
  apply in_seq. lia.
Qed.

Lemma decode_encode_byte b : is_byte b -> decode_byte (encode b) = Some b.
Proof.
  intros Hb.
  pose proof (below_256
    (fun b => match decode_byte (encode b) with
              | Some b' => b' =? b
              | None => false
              end) ltac:(vm_compute; reflexivity) b Hb) as H.
  cbv beta in H. destruct (decode_byte (encode b)) as [b'|]; [|discriminate].
  apply Z.eqb_eq in H. congruence.
Qed.

Lemma decode_step count b rest :
  decode (S count) (encode b ++ rest)
  = match decode_byte (encode b), decode count rest with
    | Some b, Some bs => Some (b :: bs)
    | _, _ => None
    end.
Proof. reflexivity. Qed.

Lemma decode_encode_all px :
  Forall pixel_bytes px ->
  decode (3 * length px) (encode_all px) = Some (scaled_bytes px).
Proof.
  induction 1 as [|p px (H0 & H1 & H2) _ IH]; [reflexivity|].
  replace (3 * length (p :: px))%nat with (S (S (S (3 * length px))))
    by (simpl; lia).
  cbn [encode_all scaled_bytes flat_map]. unfold encode_pixel.
  rewrite <- !app_assoc.
  rewrite !decode_step, !decode_encode_byte by assumption.
  fold (scaled_bytes px). rewrite IH. reflexivity.
Qed.

Lemma decode_stream_encode_all px :
  Forall pixel_bytes px ->
  decode_stream (encode_all px) = Some (scaled_bytes px).
Proof.
  intros H. unfold decode_stream. rewrite length_encode_all.
  replace (24 * length px / 8)%nat with (3 * length px)%nat.
  - apply decode_encode_all, H.
  - apply Nat.div_unique_exact; lia.
Qed.

(** ** Sequences of drive cycles *)

Lemma drive_lookup sizeof_rmt_data_t cycles : forall self (k : nat) px heap,
  ready self ->
  Forall (feasible sizeof_rmt_data_t) cycles ->
  cycles !! k = Some (px, heap) ->
  exists pre,
    ready pre
    /\ drive sizeof_rmt_data_t cycles self !! k
       = Some (pre, showPixels sizeof_rmt_data_t (pixels_of px) heap pre [])
    /\ match k with
       | O => pre = self
       | S k' => forall px0 heap0, cycles !! k' = Some (px0, heap0) ->
                   mSize pre = size_needed (length px0)
       end.
Proof.
  induction cycles as [|[px0 heap0] cycles IH]; intros self k px heap Hr Hall Hk;
    [discriminate|].
  apply Forall_cons in Hall as [[Hfit Hheap] Hall]. cbn [fst snd] in *.
  destruct k as [|k].
  - injection Hk as -> ->. exists self.
    split; [assumption | split; reflexivity].
  - cbn [lookup list_lookup] in Hk.
    destruct (cycle_summary sizeof_rmt_data_t self px0 heap0 Hr Hfit
                (fun _ => Hheap))
      as (self' & rest & Hrun & _ & Hsize & _ & _ & _ & Hr').
    destruct (IH self' k px heap Hr' Hall Hk) as (pre & Hpre & Hlook & Hprev).
    exists pre. split; [assumption|]. split.
    + cbn [drive]. rewrite Hrun. exact Hlook.
    + intros px1 heap1 Hk'. destruct k as [|k].
      * injection Hk' as -> ->. subst pre. exact Hsize.
      * apply (Hprev px1 heap1). exact Hk'.
Qed.

Lemma drive_length sizeof_rmt_data_t cycles : forall self,
  ready self ->
  Forall (feasible sizeof_rmt_data_t) cycles ->
  length (drive sizeof_rmt_data_t cycles self) = length cycles.
Proof.
  induction cycles as [|[px heap] cycles IH]; intros self Hr Hall; [reflexivity|].
  apply Forall_cons in Hall as [[Hfit Hheap] Hall]. cbn [fst snd] in *.
  destruct (cycle_summary sizeof_rmt_data_t self px heap Hr Hfit (fun _ => Hheap))
    as (self' & rest & Hrun & _ & _ & _ & _ & _ & Hr').
  cbn [drive]. rewrite Hrun. cbn [length]. f_equal. apply IH; assumption.
Qed.

Lemma reallocations_cycle sizeof_rmt_data_t self n data len :
  reallocations (alloc_calls sizeof_rmt_data_t self n ++ bus_calls data len)
  = if size_needed n =? mSize self then 0%nat else 1%nat.
Proof.
  unfold reallocations, alloc_calls.
  destruct (size_needed n =? mSize self); [reflexivity|].
  destruct (led_data self); reflexivity.
Qed.

(** ** Allocation failure *)

(** X1: when the size changes and [malloc] fails, the old buffer has
    already been freed, [mSize] already holds the new size, [led_data] is
    null, and the cycle stops writing through the null pointer; no bus call
    is made. *)
Lemma showPixels_allocation_failure sizeof_rmt_data_t self px log :
  ready self ->
  fits sizeof_rmt_data_t (length px) ->
  size_needed (length px) <> mSize self ->
  showPixels sizeof_rmt_data_t (pixels_of px) None self log
  = Undefined NullDereference
      {| hspi := hspi self; led_data := None;
         mSize := size_needed (length px) |}
      (log ++ match led_data self with Some _ => [EvFree] | None => [] end
           ++ [EvMalloc (size_needed (length px) * Z.pos sizeof_rmt_data_t) false]).
Proof.
  intros Hready Hfit Hne.
  destruct (malloc_size _ _ Hfit) as [Hsz Hle].
  pose proof Hfit as [Hi Hs].
  destruct (size_needed_bounds _ Hi) as (H3 & H8 & Hr & Hfrom).
  unfold showPixels. cbv zeta. unfold size, pixels_of. cbn [mLen mPending].
  rewrite (bind_Done _ _ _ _ _ _ _
             (int_ok (Z.of_nat (length px) * 3) _ _ ltac:(bounds))).
  rewrite (bind_Done _ _ _ _ _ _ _
             (int_ok (Z.of_nat (length px) * 3 * 8) _ _ ltac:(bounds))).
  change (Z.of_nat (length px) * 3 * 8 + 10) with (size_needed (length px)).
  rewrite (bind_Done _ _ _ _ _ _ _
             (int_ok (size_needed (length px)) _ _ ltac:(bounds))).
  rewrite bind_read.
  destruct (Z.eqb_spec (size_needed (length px)) (mSize self)) as [Heq|_];
    [contradiction|]. cbn [negb].
  apply bind_Undefined.
  rewrite bind_read.
  assert (Hfree : forall {B} (k : unit -> M B),
    bind (match led_data self with Some _ => free | None => ret tt end) k self log
    = k tt self (log ++ match led_data self with Some _ => [EvFree] | None => [] end)).
  { intros B k. destruct (led_data self); [reflexivity|].
    rewrite bind_ret, app_nil_r. reflexivity. }
  rewrite Hfree, bind_modify, bind_read. cbn [set_mSize mSize].
  rewrite Hsz, (bind_Done _ _ _ _ _ _ _ (malloc_null _ _ _)).
  rewrite bind_modify.
  rewrite (bind_Done _ _ _ _ _ _ _
             (int_ok (size_needed (length px) - 10) _ _ ltac:(bounds))).
  unfold for_.
  replace (Z.to_nat (size_needed (length px) - (size_needed (length px) - 10)))
    with 10%nat by lia.
  cbn [for_steps]. apply bind_Undefined.
  rewrite store_null by reflexivity.
  unfold set_led_data; cbn [hspi led_data mSize].
  rewrite <- app_assoc. reflexivity.
Qed.

(** * The claims *)

Lemma fits_4_0 : fits 4 0.
Proof. split; vm_compute; discriminate. Qed.
Lemma fits_4_1 : fits 4 1.
Proof. split; vm_compute; discriminate. Qed.
Lemma fits_4_2 : fits 4 2.
Proof. split; vm_compute; discriminate. Qed.

(** C6: [getMaxRefreshRate] is 400 for every template configuration and
    every controller state. *)
Theorem getMaxRefreshRate_fixed (cfg : Template) (self : Controller) :
  getMaxRefreshRate cfg self = 400.
Proof. reflexivity. Qed.

(** C3: after a drive cycle over [n] pixels the frame buffer holds
    [n * 24 + RESET_LENGTH] bytes, [RESET_LENGTH] being 10, and each of its
    last [RESET_LENGTH] bytes is zero. *)
Theorem frame_buffer_length_and_reset_tail sizeof_rmt_data_t self px heap :
  ready self ->
  fits sizeof_rmt_data_t (length px) ->
  (size_needed (length px) <> mSize self -> heap <> None) ->
  exists self' log,
    showPixels sizeof_rmt_data_t (pixels_of px) heap self [] = Done tt self' log
    /\ RESET_LENGTH = 10
    /\ mSize self' = Z.of_nat (length px) * 24 + RESET_LENGTH
    /\ Z.of_nat (length (frame_buffer self'))
       = Z.of_nat (length px) * 24 + RESET_LENGTH
    /\ forall i : nat,
         (length px * 24 <= i < length px * 24 + 10)%nat ->
         frame_buffer self' !! i = Some 0.
Proof.
  intros Hr Hfit Hheap.
  destruct (cycle_summary _ _ _ _ Hr Hfit Hheap)
    as (self' & rest & Hrun & _ & Hsize & _ & _ & Hfb & _).
  eexists self', _. split; [exact Hrun|]. split; [reflexivity|].
  split; [rewrite Hsize; unfold size_needed; lia|].
  rewrite Hfb. split.
  - rewrite length_app, length_encode_all, length_replicate.
    unfold RESET_LENGTH. lia.
  - intros i Hi. rewrite lookup_app_r by (rewrite length_encode_all; lia).
    apply lookup_replicate_2. rewrite length_encode_all. lia.
Qed.

Lemma frame_buffer_length_and_reset_tail_witness :
  ready initialised /\ fits 4 (length strip1) /\
  exists self' log,
    showPixels 4 (pixels_of strip1) (Some stale) initialised [] = Done tt self' log
    /\ RESET_LENGTH = 10
    /\ mSize self' = Z.of_nat (length strip1) * 24 + RESET_LENGTH
    /\ Z.of_nat (length (frame_buffer self'))
       = Z.of_nat (length strip1) * 24 + RESET_LENGTH
    /\ forall i : nat,
         (length strip1 * 24 <= i < length strip1 * 24 + 10)%nat ->
         frame_buffer self' !! i = Some 0.
Proof.
  split; [exact ready_initialised|]. split; [exact fits_4_1|].
  apply (frame_buffer_length_and_reset_tail 4 initialised strip1 (Some stale)).
  - exact ready_initialised.
  - exact fits_4_1.
  - discriminate.
Defined.

(** C2: every scaled byte in 0..255 is encoded as exactly eight symbol
    bytes, most significant bit first: the symbol at position [i] of the
    byte of channel [c] of pixel [j] is [mOne] (0xf8) exactly when bit
    [7 - i] of that byte is 1, and [mZero] (0x80) otherwise. *)
Theorem encode_msb_first sizeof_rmt_data_t self px heap :
  ready self ->
  fits sizeof_rmt_data_t (length px) ->
  (size_needed (length px) <> mSize self -> heap <> None) ->
  exists self' log,
    showPixels sizeof_rmt_data_t (pixels_of px) heap self [] = Done tt self' log
    /\ mOne = 0xf8 /\ mZero = 0x80
    /\ length (frame_buffer self') = (8 * (3 * length px) + 10)%nat
    /\ forall (j c i : nat) p,
         px !! j = Some p -> (c < 3)%nat -> (i < 8)%nat ->
         0 <= channel p c < 256 ->
         frame_buffer self' !! (24 * j + 8 * c + i)%nat
         = Some (if Z.testbit (channel p c) (7 - Z.of_nat i)
                 then mOne else mZero).
Proof.
  intros Hr Hfit Hheap.
  destruct (cycle_summary _ _ _ _ Hr Hfit Hheap)
    as (self' & rest & Hrun & _ & _ & _ & _ & Hfb & _).
  eexists self', _. split; [exact Hrun|]. do 2 (split; [reflexivity|]).
  rewrite Hfb. split.
  - rewrite length_app, length_encode_all, length_replicate. lia.
  - intros j c i p Hj Hc Hi _.
    pose proof (lookup_lt_Some _ _ _ Hj) as Hlt.
    rewrite lookup_app_l by (rewrite length_encode_all; lia).
    rewrite <- Nat.add_assoc.
    rewrite (encode_all_lookup px j p (8 * c + i) Hj) by lia.
    rewrite encode_pixel_lookup by assumption.
    apply encode_lookup. assumption.
Qed.

Lemma encode_msb_first_witness :
  ready initialised /\ fits 4 (length strip1) /\
  exists self' log,
    showPixels 4 (pixels_of strip1) (Some stale) initialised [] = Done tt self' log
    /\ mOne = 0xf8 /\ mZero = 0x80
    /\ length (frame_buffer self') = (8 * (3 * length strip1) + 10)%nat
    /\ forall (j c i : nat) p,
         strip1 !! j = Some p -> (c < 3)%nat -> (i < 8)%nat ->
         0 <= channel p c < 256 ->
         frame_buffer self' !! (24 * j + 8 * c + i)%nat
         = Some (if Z.testbit (channel p c) (7 - Z.of_nat i)
                 then mOne else mZero).
Proof.
  split; [exact ready_initialised|]. split; [exact fits_4_1|].
  apply (encode_msb_first 4 initialised strip1 (Some stale)).
  - exact ready_initialised.
  - exact fits_4_1.
  - discriminate.
Defined.

(** C10: every symbol byte the encoder writes is 0xf8 or 0x80; both are
    nonzero and have their most significant bit set, so a zero byte of the
    frame buffer lies in the reset tail, never in the encoded region. *)
Theorem symbols_nonzero_msb_set sizeof_rmt_data_t self px heap :
  ready self ->
  fits sizeof_rmt_data_t (length px) ->
  (size_needed (length px) <> mSize self -> heap <> None) ->
  exists self' log,
    showPixels sizeof_rmt_data_t (pixels_of px) heap self [] = Done tt self' log
    /\ (forall (i : nat) s,
          (i < 24 * length px)%nat -> frame_buffer self' !! i = Some s ->
          (s = 0xf8 \/ s = 0x80) /\ s <> 0 /\ Z.testbit s 7 = true)
    /\ (forall i : nat,
          frame_buffer self' !! i = Some 0 ->
          (24 * length px <= i < 24 * length px + 10)%nat).
Proof.
  intros Hr Hfit Hheap.
  destruct (cycle_summary _ _ _ _ Hr Hfit Hheap)
    as (self' & rest & Hrun & _ & _ & _ & _ & Hfb & _).
  eexists self', _. split; [exact Hrun|]. rewrite Hfb.
  assert (Hsym : forall (i : nat) s,
            (i < 24 * length px)%nat ->
            (encode_all px ++ replicate 10 0) !! i = Some s ->
            (s = 0xf8 \/ s = 0x80) /\ s <> 0 /\ Z.testbit s 7 = true).
  { intros i s Hi Hs.
    rewrite lookup_app_l in Hs by (rewrite length_encode_all; lia).
    destruct (Forall_lookup_1 _ _ _ _ (encode_all_symbols px) Hs) as [-> | ->].
    - split; [left; reflexivity|]. split; [discriminate | reflexivity].
    - split; [right; reflexivity|]. split; [discriminate | reflexivity]. }
  split; [exact Hsym|].
  intros i Hs. pose proof (lookup_lt_Some _ _ _ Hs) as Hlt.
  rewrite length_app, length_encode_all, length_replicate in Hlt.
  destruct (Nat.lt_ge_cases i (24 * length px)) as [Hi|Hi]; [|lia].
  destruct (Hsym i 0 Hi Hs) as (_ & Hnz & _). contradiction.
Qed.

Lemma symbols_nonzero_msb_set_witness :
  ready initialised /\ fits 4 (length strip1) /\
  exists self' log,
    showPixels 4 (pixels_of strip1) (Some stale) initialised [] = Done tt self' log
    /\ (forall (i : nat) s,
          (i < 24 * length strip1)%nat -> frame_buffer self' !! i = Some s ->
          (s = 0xf8 \/ s = 0x80) /\ s <> 0 /\ Z.testbit s 7 = true)
    /\ (forall i : nat,
          frame_buffer self' !! i = Some 0 ->
          (24 * length strip1 <= i < 24 * length strip1 + 10)%nat).
Proof.
  split; [exact ready_initialised|]. split; [exact fits_4_1|].
  apply (symbols_nonzero_msb_set 4 initialised strip1 (Some stale)).
  - exact ready_initialised.
  - exact fits_4_1.
  - discriminate.
Defined.

(** C5: round trip.  Reading each symbol byte of the encoded stream back as
    a bit ([mOne] as 1, [mZero] as 0) and regrouping eight bits, most
    significant first, gives back the scaled colour bytes in the order
    channel 0, channel 1, channel 2 of each pixel; the encoded stream is the
    encoded region of the frame buffer, which is also what the bus is given. *)
Theorem decode_roundtrip sizeof_rmt_data_t self px heap :
  ready self ->
  fits sizeof_rmt_data_t (length px) ->
  (size_needed (length px) <> mSize self -> heap <> None) ->
  Forall pixel_bytes px ->
  exists self' log data size,
    showPixels sizeof_rmt_data_t (pixels_of px) heap self [] = Done tt self' log
    /\ In (EvWriteBytes data size) log
    /\ data = take (24 * length px) (frame_buffer self')
    /\ decode_stream data = Some (scaled_bytes px).
Proof.
  intros Hr Hfit Hheap Hbytes.
  destruct (cycle_summary _ _ _ _ Hr Hfit Hheap)
    as (self' & rest & Hrun & _ & _ & _ & _ & Hfb & _).
  eexists self', _, (encode_all px), (24 * Z.of_nat (length px)).
  split; [exact Hrun|]. split; [|split].
  - apply in_or_app. right. unfold bus_calls. simpl. auto.
  - rewrite Hfb. symmetry. apply take_app_length'.
    rewrite length_encode_all. reflexivity.
  - apply decode_stream_encode_all, Hbytes.
Qed.

Lemma pixel_bytes_strip2 : Forall pixel_bytes strip2.
Proof. repeat constructor; vm_compute; discriminate. Qed.

Lemma decode_roundtrip_witness :
  ready initialised /\ fits 4 (length strip2) /\ Forall pixel_bytes strip2 /\
  exists self' log data size,
    showPixels 4 (pixels_of strip2) (Some stale) initialised [] = Done tt self' log
    /\ In (EvWriteBytes data size) log
    /\ data = take (24 * length strip2) (frame_buffer self')
    /\ decode_stream data = Some (scaled_bytes strip2).
Proof.
  split; [exact ready_initialised|]. split; [exact fits_4_2|].
  split; [exact pixel_bytes_strip2|].
  apply (decode_roundtrip 4 initialised strip2 (Some stale)).
  - exact ready_initialised.
  - exact fits_4_2.
  - discriminate.
  - exact pixel_bytes_strip2.
Defined.

(** C7: the transmit phase of every drive cycle opens one bus transaction
    with the settings 6.4 MHz, most significant bit first, mode 0, performs
    one write of the length it is given, and closes the transaction; these
    are the last calls of the cycle and the only bus calls in it.  The
    length given is the cursor the encoding loop stopped at, 24 bytes for
    each pixel, and the bytes written are the first that many bytes of the
    frame buffer. *)
Theorem transmit_one_transaction sizeof_rmt_data_t self px heap :
  ready self ->
  fits sizeof_rmt_data_t (length px) ->
  (size_needed (length px) <> mSize self -> heap <> None) ->
  exists self' log before,
    showPixels sizeof_rmt_data_t (pixels_of px) heap self [] = Done tt self' log
    /\ log = before
             ++ [ EvBeginTransaction (mkSPISettings 6400000 MSBFIRST SPI_MODE0);
                  EvWriteBytes (take (24 * length px) (frame_buffer self'))
                    (24 * Z.of_nat (length px));
                  EvEndTransaction ]
    /\ List.filter is_bus before = []
    /\ take (24 * length px) (frame_buffer self') = encode_all px.
Proof.
  intros Hr Hfit Hheap.
  destruct (cycle_summary _ _ _ _ Hr Hfit Hheap)
    as (self' & rest & Hrun & _ & _ & _ & _ & Hfb & _).
  assert (Htake : take (24 * length px) (frame_buffer self') = encode_all px).
  { rewrite Hfb. apply take_app_length'. rewrite length_encode_all. reflexivity. }
  eexists self', _, (alloc_calls sizeof_rmt_data_t self (length px)).
  split; [exact Hrun|]. split; [|split; [|exact Htake]].
  - rewrite Htake. reflexivity.
  - unfold alloc_calls.
    destruct (size_needed (length px) =? mSize self); [reflexivity|].
    destruct (led_data self); reflexivity.
Qed.

Lemma transmit_one_transaction_witness :
  ready initialised /\ fits 4 (length strip1) /\
  exists self' log before,
    showPixels 4 (pixels_of strip1) (Some stale) initialised [] = Done tt self' log
    /\ log = before
             ++ [ EvBeginTransaction (mkSPISettings 6400000 MSBFIRST SPI_MODE0);
                  EvWriteBytes (take (24 * length strip1) (frame_buffer self'))
                    (24 * Z.of_nat (length strip1));
                  EvEndTransaction ]
    /\ List.filter is_bus before = []
    /\ take (24 * length strip1) (frame_buffer self') = encode_all strip1.
Proof.
  split; [exact ready_initialised|]. split; [exact fits_4_1|].
  apply (transmit_one_transaction 4 initialised strip1 (Some stale)).
  - exact ready_initialised.
  - exact fits_4_1.
  - discriminate.
Defined.

(** C4: along every sequence of drive cycles, a cycle reallocates the frame
    buffer exactly when the size it needs differs from the current one: a
    cycle with the pixel count of the cycle before it reallocates nothing, a
    cycle with another pixel count reallocates once; after every cycle, so
    after every reallocation whatever the fresh memory held, the last
    [RESET_LENGTH] bytes of the frame buffer are zero, and a cycle that does
    not reallocate leaves every byte behind the encoded region as it was. *)
Theorem reallocation_iff_size_change sizeof_rmt_data_t cycles self :
  ready self ->
  Forall (feasible sizeof_rmt_data_t) cycles ->
  length (drive sizeof_rmt_data_t cycles self) = length cycles /\
  forall (k : nat) px heap,
    cycles !! k = Some (px, heap) ->
    exists pre post log,
      drive sizeof_rmt_data_t cycles self !! k = Some (pre, Done tt post log)
      /\ (reallocations log = 1%nat <-> size_needed (length px) <> mSize pre)
      /\ (reallocations log = 0%nat <-> size_needed (length px) = mSize pre)
      /\ (forall (k' : nat) px0 heap0,
            k = S k' -> cycles !! k' = Some (px0, heap0) ->
            (length px = length px0 -> reallocations log = 0%nat)
            /\ (length px <> length px0 -> reallocations log = 1%nat))
      /\ (forall i : nat,
            (24 * length px <= i < 24 * length px + 10)%nat ->
            frame_buffer post !! i = Some 0)
      /\ (reallocations log = 0%nat ->
          exists old new,
            led_data pre = Some old /\ led_data post = Some new
            /\ drop (24 * length px) new = drop (24 * length px) old).
Proof.
  intros Hr Hall. split; [apply drive_length; assumption|].
  intros k px heap Hk.
  destruct (drive_lookup _ _ _ _ _ _ Hr Hall Hk) as (pre & Hpre & Hlook & Hprev).
  assert (Hfeas : feasible sizeof_rmt_data_t (px, heap))
    by (eapply Forall_lookup_1; eassumption).
  destruct Hfeas as [Hfit Hheap]. cbn [fst snd] in *.
  destruct (cycle_summary _ _ _ _ Hpre Hfit (fun _ => Hheap))
    as (post & rest & Hrun & _ & _ & Hblock & Hrest & Hfb & _).
  rewrite Hrun in Hlook. eexists pre, post, _. split; [exact Hlook|].
  rewrite reallocations_cycle.
  destruct (Z.eqb_spec (size_needed (length px)) (mSize pre)) as [Heq|Hne].
  - split; [split; [discriminate | contradiction]|].
    split; [split; auto|]. split; [|split].
    + intros k' px0 heap0 -> Hk'. split; [reflexivity|].
      intros Hlen. exfalso. apply Hlen.
      rewrite (Hprev px0 heap0 Hk') in Heq. unfold size_needed in Heq. lia.
    + intros i Hi. rewrite Hfb.
      rewrite lookup_app_r by (rewrite length_encode_all; lia).
      apply lookup_replicate_2. rewrite length_encode_all. lia.
    + intros _. unfold base_block in Hrest.
      rewrite (proj2 (Z.eqb_eq _ _) Heq) in Hrest.
      destruct (led_data pre) as [old|] eqn:Hold.
      2:{ destruct Hpre as [_ Hz]. rewrite Hold in Hz.
          unfold size_needed in Heq. bounds. }
      eexists old, _. split; [reflexivity|]. split; [exact Hblock|].
      rewrite drop_app_length' by (rewrite length_encode_all; reflexivity).
      subst rest. cbn [default].
      pose proof (ready_tail _ _ Hpre Hold) as Htail.
      rewrite <- Heq in Htail.
      replace (Z.to_nat (size_needed (length px) - RESET_LENGTH))
        with (24 * length px)%nat in Htail
        by (unfold size_needed, RESET_LENGTH; lia).
      symmetry. exact Htail.
  - split; [split; auto|].
    split; [split; [discriminate | contradiction]|]. split; [|split].
    + intros k' px0 heap0 -> Hk'. split; [|reflexivity].
      intros Hlen. exfalso. apply Hne.
      rewrite (Hprev px0 heap0 Hk'), Hlen. reflexivity.
    + intros i Hi. rewrite Hfb.
      rewrite lookup_app_r by (rewrite length_encode_all; lia).
      apply lookup_replicate_2. rewrite length_encode_all. lia.
    + discriminate.
Qed.

Lemma feasible_three_cycles : Forall (feasible 4) three_cycles.
Proof.
  repeat apply List.Forall_cons; try apply List.Forall_nil;
    (split; [split; vm_compute; discriminate | discriminate]).
Qed.

Lemma reallocation_iff_size_change_witness :
  ready initialised /\ Forall (feasible 4) three_cycles /\
  length (drive 4 three_cycles initialised) = length three_cycles /\
  forall (k : nat) px heap,
    three_cycles !! k = Some (px, heap) ->
    exists pre post log,
      drive 4 three_cycles initialised !! k = Some (pre, Done tt post log)
      /\ (reallocations log = 1%nat <-> size_needed (length px) <> mSize pre)
      /\ (reallocations log = 0%nat <-> size_needed (length px) = mSize pre)
      /\ (forall (k' : nat) px0 heap0,
            k = S k' -> three_cycles !! k' = Some (px0, heap0) ->
            (length px = length px0 -> reallocations log = 0%nat)
            /\ (length px <> length px0 -> reallocations log = 1%nat))
      /\ (forall i : nat,
            (24 * length px <= i < 24 * length px + 10)%nat ->
            frame_buffer post !! i = Some 0)
      /\ (reallocations log = 0%nat ->
          exists old new,
            led_data pre = Some old /\ led_data post = Some new
            /\ drop (24 * length px) new = drop (24 * length px) old).
Proof.
  split; [exact ready_initialised|]. split; [exact feasible_three_cycles|].
  apply (reallocation_iff_size_change 4 three_cycles initialised).
  - exact ready_initialised.
  - exact feasible_three_cycles.
Defined.

(** The write of a drive cycle is given the cursor the encoding loop
    stopped at, which is the length of the encoded region alone. *)
Lemma write_size_is_encoded_length sizeof_rmt_data_t self px heap :
  ready self ->
  fits sizeof_rmt_data_t (length px) ->
  (size_needed (length px) <> mSize self -> heap <> None) ->
  exists self' before,
    showPixels sizeof_rmt_data_t (pixels_of px) heap self []
    = Done tt self'
        (before
           ++ [ EvBeginTransaction (mkSPISettings 6400000 MSBFIRST SPI_MODE0);
                EvWriteBytes (encode_all px) (Z.of_nat (length px) * 24);
                EvEndTransaction ])
    /\ Z.of_nat (length (frame_buffer self'))
       = Z.of_nat (length px) * 24 + RESET_LENGTH.
Proof.
  intros Hr Hfit Hheap.
  destruct (cycle_summary _ _ _ _ Hr Hfit Hheap)
    as (self' & rest & Hrun & _ & _ & _ & _ & Hfb & _).
  exists self', (alloc_calls sizeof_rmt_data_t self (length px)).
  split.
  - rewrite Hrun. unfold bus_calls.
    replace (24 * Z.of_nat (length px)) with (Z.of_nat (length px) * 24) by lia.
    reflexivity.
  - rewrite Hfb, length_app, length_encode_all, length_replicate.
    unfold RESET_LENGTH. lia.
Qed.

(** C1: the length handed to the transmit write.  For the one-pixel strip
    (0xFF, 0x00, 0x81) the frame buffer holds 1 * 24 + RESET_LENGTH = 34
    bytes, yet the write is given the length 24 and the 24 encoded bytes:
    the ten zero bytes of the reset tail are not part of the transmission. *)
Theorem transmit_length_excludes_reset_tail :
  exists self' data size,
    showPixels 4 (pixels_of strip1) (Some stale) initialised []
    = Done tt self'
        [ EvMalloc 136 true;
          EvBeginTransaction (mkSPISettings 6400000 MSBFIRST SPI_MODE0);
          EvWriteBytes data size;
          EvEndTransaction ]
    /\ Z.of_nat (length strip1) * 24 + RESET_LENGTH = 34
    /\ Z.of_nat (length (frame_buffer self')) = 34
    /\ size = 24
    /\ data = take 24 (frame_buffer self')
    /\ drop 24 (frame_buffer self') = replicate 10 0.
Proof.
  do 3 eexists. split; [run|]. repeat split.
Qed.

(** C8: a strip of 0 pixels.  The frame buffer is [RESET_LENGTH] zero
    bytes and the cycle completes with one bus transaction, but its write
    is given the length 0: no byte of the reset tail is transmitted. *)
Theorem empty_strip_transmits_nothing :
  exists self',
    showPixels 4 (pixels_of []) (Some stale) initialised []
    = Done tt self'
        [ EvMalloc 40 true;
          EvBeginTransaction (mkSPISettings 6400000 MSBFIRST SPI_MODE0);
          EvWriteBytes [] 0;
          EvEndTransaction ]
    /\ Z.of_nat (length (frame_buffer self')) = RESET_LENGTH
    /\ frame_buffer self' = replicate 10 0.
Proof.
  eexists. split; [run|]. split; reflexivity.
Qed.

(** C9: allocation failure.  A controller that owns the buffer of a
    one-pixel strip is asked to show two pixels and [malloc] fails: the old
    buffer has been freed, [led_data] is null, [mSize] already holds the new
    size 58, and the cycle writes through the null pointer.  A further cycle
    for the same strip finds the size unchanged, does not allocate, and
    writes through the null pointer again. *)
Theorem allocation_failure_loses_buffer :
  exists s1 log1 old,
    showPixels 4 (pixels_of strip1) (Some stale) initialised [] = Done tt s1 log1
    /\ led_data s1 = Some old
    /\ showPixels 4 (pixels_of strip2) None s1 []
       = Undefined NullDereference
           {| hspi := hspi s1; led_data := None; mSize := 58 |}
           [EvFree; EvMalloc 232 false]
    /\ forall heap,
         showPixels 4 (pixels_of strip2) heap
           {| hspi := hspi s1; led_data := None; mSize := 58 |} []
         = Undefined NullDereference
             {| hspi := hspi s1; led_data := None; mSize := 58 |} [].
Proof.
  do 3 eexists. split; [run|]. split; [reflexivity|].
  split; [run|]. intros heap. run.
Qed.

(** The one-pixel scenario: the scaled bytes 0xFF, 0x00, 0x81 give eight
    one-patterns, eight zero-patterns, the pattern of 0x81, and the reset
    tail. *)
Example one_pixel_frame :
  exists self' log,
    showPixels 4 (pixels_of strip1) (Some stale) initialised [] = Done tt self' log
    /\ frame_buffer self'
       = replicate 8 mOne ++ replicate 8 mZero
           ++ [mOne; mZero; mZero; mZero; mZero; mZero; mZero; mOne]
           ++ replicate 10 0.
Proof. do 2 eexists. split; [run | reflexivity]. Qed.

(** * Further properties of the controller *)

(** ** The capacity step, for any pixel source *)

Lemma showPixels_same_size sizeof_rmt_data_t pixels heap self log n :
  mLen pixels = Z.of_nat n ->
  size_needed n <= INT_MAX ->
  size_needed n = mSize self ->
  showPixels sizeof_rmt_data_t pixels heap self log
  = (cur <- encode_loop (mPending pixels) 0 ;;
     beginTransaction (mkSPISettings 6400000 MSBFIRST SPI_MODE0) ;;
     writeBytes cur ;;
     endTransaction) self log.
Proof.
  intros Hlen Hi Heq.
  destruct (size_needed_bounds _ Hi) as (H3 & H8 & Hr & Hfrom).
  unfold showPixels. cbv zeta. unfold size. rewrite Hlen.
  rewrite (bind_Done _ _ _ _ _ _ _
             (int_ok (Z.of_nat n * 3) _ _ ltac:(bounds))).
  rewrite (bind_Done _ _ _ _ _ _ _
             (int_ok (Z.of_nat n * 3 * 8) _ _ ltac:(bounds))).
  change (Z.of_nat n * 3 * 8 + 10) with (size_needed n).
  rewrite (bind_Done _ _ _ _ _ _ _ (int_ok (size_needed n) _ _ ltac:(bounds))).
  rewrite bind_read, (proj2 (Z.eqb_eq _ _) Heq). cbn [negb].
  rewrite bind_ret. reflexivity.
Qed.

Lemma showPixels_resize sizeof_rmt_data_t pixels g self log n :
  mLen pixels = Z.of_nat n ->
  fits sizeof_rmt_data_t n ->
  size_needed n <> mSize self ->
  showPixels sizeof_rmt_data_t pixels (Some g) self log
  = (cur <- encode_loop (mPending pixels) 0 ;;
     beginTransaction (mkSPISettings 6400000 MSBFIRST SPI_MODE0) ;;
     writeBytes cur ;;
     endTransaction)
      {| hspi := hspi self;
         led_data := Some (prepared_block sizeof_rmt_data_t self n (Some g));
         mSize := size_needed n |}
      (log ++ match led_data self with Some _ => [EvFree] | None => [] end
           ++ [EvMalloc (size_needed n * Z.pos sizeof_rmt_data_t) true]).
Proof.
  intros Hlen Hfit Hne.
  pose proof Hfit as [Hi Hs].
  destruct (size_needed_bounds _ Hi) as (H3 & H8 & Hr & Hfrom).
  unfold showPixels. cbv zeta. unfold size. rewrite Hlen.
  rewrite (bind_Done _ _ _ _ _ _ _
             (int_ok (Z.of_nat n * 3) _ _ ltac:(bounds))).
  rewrite (bind_Done _ _ _ _ _ _ _
             (int_ok (Z.of_nat n * 3 * 8) _ _ ltac:(bounds))).
  change (Z.of_nat n * 3 * 8 + 10) with (size_needed n).
  rewrite (bind_Done _ _ _ _ _ _ _ (int_ok (size_needed n) _ _ ltac:(bounds))).
  rewrite bind_read.
  destruct (Z.eqb_spec (size_needed n) (mSize self)) as [Heq|_];
    [contradiction|]. cbn [negb].
  rewrite (bind_Done _ _ _ _ _ _ _
             (reallocate_ok sizeof_rmt_data_t self log n g Hfit)).
  unfold prepared_block, base_block.
  rewrite (proj2 (Z.eqb_neq _ _) Hne). reflexivity.
Qed.

Lemma length_prepared_block sizeof_rmt_data_t self n heap :
  (24 * n + 10 <= length (base_block sizeof_rmt_data_t self n heap))%nat ->
  length (prepared_block sizeof_rmt_data_t self n heap)
  = length (base_block sizeof_rmt_data_t self n heap).
Proof.
  intros H. unfold prepared_block. cbv zeta.
  rewrite !length_app, length_take_le, length_replicate, length_drop; lia.
Qed.

Lemma length_fresh_block sizeof_rmt_data_t self n g :
  fits sizeof_rmt_data_t n ->
  size_needed n <> mSize self ->
  Z.of_nat (length (base_block sizeof_rmt_data_t self n (Some g)))
  = size_needed n * Z.pos sizeof_rmt_data_t.
Proof.
  intros Hfit Hne. destruct (malloc_size _ _ Hfit) as [_ Hle].
  destruct Hfit as [Hi _]. destruct (size_needed_bounds _ Hi) as (_ & _ & Hr & _).
  unfold base_block. rewrite (proj2 (Z.eqb_neq _ _) Hne).
  rewrite length_map, length_seq. bounds.
Qed.

Lemma showPixels_allocation_failure_witness :
  ready initialised /\ fits 4 (length strip1) /\
  size_needed (length strip1) <> mSize initialised /\
  showPixels 4 (pixels_of strip1) None initialised []
  = Undefined NullDereference
      {| hspi := hspi initialised; led_data := None;
         mSize := size_needed (length strip1) |}
      ([] ++ match led_data initialised with Some _ => [EvFree] | None => [] end
          ++ [EvMalloc (size_needed (length strip1) * Z.pos 4) false]).
Proof.
  split; [exact ready_initialised|]. split; [exact fits_4_1|].
  split; [discriminate|].
  apply (showPixels_allocation_failure 4 initialised strip1 []).
  - exact ready_initialised.
  - exact fits_4_1.
  - discriminate.
Defined.

Lemma drop_prepared_block sizeof_rmt_data_t self n heap :
  (24 * n <= length (base_block sizeof_rmt_data_t self n heap))%nat ->
  drop (24 * n) (prepared_block sizeof_rmt_data_t self n heap)
  = replicate 10 0
      ++ drop (24 * n + 10) (base_block sizeof_rmt_data_t self n heap).
Proof.
  intros H. unfold prepared_block. cbv zeta.
  apply drop_app_length'. rewrite length_take_le; lia.
Qed.

(** One drive cycle for any pixel source: [n] is the count [size()]
    reports, while the loop encodes the pixels the source still holds. *)
Lemma showPixels_general sizeof_rmt_data_t pixels heap self log n :
  mLen pixels = Z.of_nat n ->
  fits sizeof_rmt_data_t n ->
  hspi self <> None ->
  (size_needed n = mSize self -> led_data self <> None) ->
  (size_needed n <> mSize self -> heap <> None) ->
  24 * Z.of_nat (length (mPending pixels))
    <= Z.of_nat (length (working_block sizeof_rmt_data_t self n heap)) ->
  24 * Z.of_nat (length (mPending pixels)) <= INT_MAX ->
  showPixels sizeof_rmt_data_t pixels heap self log
  = Done tt
      {| hspi := hspi self;
         led_data :=
           Some (encode_all (mPending pixels)
                   ++ drop (24 * length (mPending pixels))
                        (working_block sizeof_rmt_data_t self n heap));
         mSize := size_needed n |}
      (log ++ alloc_calls sizeof_rmt_data_t self n
           ++ bus_calls (encode_all (mPending pixels))
                (24 * Z.of_nat (length (mPending pixels)))).
Proof.
  intros Hlen Hfit Hh Hown Hheap Hcap Hmax.
  unfold working_block, alloc_calls in *.
  destruct (Z.eqb_spec (size_needed n) (mSize self)) as [Heq|Hne].
  - rewrite (showPixels_same_size _ _ _ _ _ n Hlen (proj1 Hfit) Heq).
    destruct (led_data self) as [block|] eqn:Hb; [|destruct (Hown Heq eq_refl)].
    cbn [default] in *.
    rewrite (encode_and_send_ok self log block _ Hh Hb Hcap Hmax).
    unfold set_led_data. rewrite Heq. reflexivity.
  - destruct heap as [g|]; [|destruct (Hheap Hne eq_refl)].
    rewrite (showPixels_resize _ _ _ _ _ n Hlen Hfit Hne).
    set (self1 := mkController _ _ _).
    rewrite (encode_and_send_ok self1 _ _ _ Hh eq_refl Hcap Hmax).
    unfold set_led_data; cbn [hspi led_data mSize].
    rewrite <- !app_assoc. reflexivity.
Qed.

Lemma size_needed_nonzero n : size_needed n <> 0.
Proof. unfold size_needed, RESET_LENGTH. lia. Qed.

(** X3: [init] followed by a first drive cycle.  The handle [init] creates
    is the one the cycle sends through: the run completes, and its calls
    are the creation and start of the HSPI bus, one allocation and the
    transaction. *)
Theorem init_then_showPixels sizeof_rmt_data_t px g :
  fits sizeof_rmt_data_t (length px) ->
  (init ;; showPixels sizeof_rmt_data_t (pixels_of px) (Some g)) new_controller []
  = Done tt
      {| hspi := Some (mkSPIClass HSPI);
         led_data :=
           Some (encode_all px ++ replicate 10 0
                   ++ drop (24 * length px + 10)
                        (map g (seq 0 (Z.to_nat (size_needed (length px)
                                                 * Z.pos sizeof_rmt_data_t)))));
         mSize := size_needed (length px) |}
      ([EvNewSPI HSPI; EvSPIBegin;
        EvMalloc (size_needed (length px) * Z.pos sizeof_rmt_data_t) true]
         ++ bus_calls (encode_all px) (24 * Z.of_nat (length px))).
Proof.
  intros Hfit.
  rewrite (bind_Done _ _ _ _ _ _ _ init_ok).
  rewrite (showPixels_ok _ _ _ _ _ ready_initialised Hfit)
    by (intros _; discriminate).
  unfold alloc_calls, base_block. cbn [initialised mSize led_data hspi].
  rewrite (proj2 (Z.eqb_neq _ _) (size_needed_nonzero (length px))).
  reflexivity.
Qed.

Lemma init_then_showPixels_witness :
  fits 4 (length strip1) /\
  (init ;; showPixels 4 (pixels_of strip1) (Some stale)) new_controller []
  = Done tt
      {| hspi := Some (mkSPIClass HSPI);
         led_data :=
           Some (encode_all strip1 ++ replicate 10 0
                   ++ drop (24 * length strip1 + 10)
                        (map stale (seq 0 (Z.to_nat (size_needed (length strip1)
                                                     * Z.pos 4)))));
         mSize := size_needed (length strip1) |}
      ([EvNewSPI HSPI; EvSPIBegin;
        EvMalloc (size_needed (length strip1) * Z.pos 4) true]
         ++ bus_calls (encode_all strip1) (24 * Z.of_nat (length strip1))).
Proof.
  split; [exact fits_4_1|].
  apply (init_then_showPixels 4 strip1 stale). exact fits_4_1.
Defined.

(** X4: a drive cycle on a controller on which [init] never ran.  The
    buffer is allocated and fully encoded, then the cycle dereferences the
    null [hspi] at [beginTransaction]: no bus call is made. *)
Theorem showPixels_before_init sizeof_rmt_data_t px g :
  fits sizeof_rmt_data_t (length px) ->
  showPixels sizeof_rmt_data_t (pixels_of px) (Some g) new_controller []
  = Undefined NullDereference
      {| hspi := None;
         led_data :=
           Some (encode_all px ++ replicate 10 0
                   ++ drop (24 * length px + 10)
                        (map g (seq 0 (Z.to_nat (size_needed (length px)
                                                 * Z.pos sizeof_rmt_data_t)))));
         mSize := size_needed (length px) |}
      [EvMalloc (size_needed (length px) * Z.pos sizeof_rmt_data_t) true].
Proof.
  intros Hfit.
  assert (Hne : size_needed (length px) <> mSize new_controller)
    by apply size_needed_nonzero.
  rewrite (showPixels_resize _ (pixels_of px) _ _ _ (length px) eq_refl Hfit Hne).
  pose proof (length_fresh_block _ new_controller _ g Hfit Hne) as Hlen.
  destruct (malloc_size _ _ Hfit) as [_ Hle].
  pose proof Hfit as [Hi _].
  destruct (size_needed_bounds _ Hi) as (_ & _ & Hr & Hfrom).
  assert (Hbase : (24 * length px + 10
                   <= length (base_block sizeof_rmt_data_t new_controller
                                (length px) (Some g)))%nat) by bounds.
  set (self1 := mkController _ _ _).
  rewrite (bind_Done _ _ _ _ _ _ _
             (encode_loop_ok px 0 self1 _ _ eq_refl ltac:(lia)
                ltac:(rewrite length_prepared_block by exact Hbase; bounds)
                ltac:(bounds))).
  apply bind_Undefined.
  change (Z.to_nat 0) with 0%nat. rewrite take_0. cbn [app Nat.add].
  rewrite drop_prepared_block by lia.
  unfold base_block. rewrite (proj2 (Z.eqb_neq _ _) Hne).
  reflexivity.
Qed.

Lemma showPixels_before_init_witness :
  fits 4 (length strip1) /\
  showPixels 4 (pixels_of strip1) (Some stale) new_controller []
  = Undefined NullDereference
      {| hspi := None;
         led_data :=
           Some (encode_all strip1 ++ replicate 10 0
                   ++ drop (24 * length strip1 + 10)
                        (map stale (seq 0 (Z.to_nat (size_needed (length strip1)
                                                     * Z.pos 4)))));
         mSize := size_needed (length strip1) |}
      [EvMalloc (size_needed (length strip1) * Z.pos 4) true].
Proof.
  split; [exact fits_4_1|].
  apply (showPixels_before_init 4 strip1 stale). exact fits_4_1.
Defined.

Lemma ready_frame h px rest :
  h <> None ->
  size_needed (length px) <= INT_MAX ->
  let self' := {| hspi := h;
                  led_data := Some (encode_all px ++ replicate 10 0 ++ rest);
                  mSize := size_needed (length px) |} in
  ready self' /\ frame_buffer self' = encode_all px ++ replicate 10 0.
Proof.
  intros Hh Hi self'.
  destruct (size_needed_bounds _ Hi) as (_ & _ & Hr & Hfrom).
  assert (Hn : Z.to_nat (size_needed (length px)) = (24 * length px + 10)%nat)
    by (unfold size_needed, RESET_LENGTH; lia).
  split; [split; [exact Hh|]|].
  - cbn [self' led_data mSize]. split; [bounds|]. split.
    + rewrite !length_app, length_encode_all, length_replicate.
      unfold size_needed, RESET_LENGTH. lia.
    + replace (Z.to_nat (size_needed (length px) - RESET_LENGTH))
        with (length (encode_all px))
        by (rewrite length_encode_all; unfold size_needed, RESET_LENGTH; lia).
      rewrite drop_app_length. apply take_app_length'.
      rewrite length_replicate. reflexivity.
  - unfold frame_buffer, self'; cbn [led_data mSize]. rewrite Hn, app_assoc.
    apply take_app_length'.
    rewrite length_app, length_encode_all, length_replicate. reflexivity.
Qed.

(** X5: recovery after a failed allocation.  The failure left [led_data]
    null and [mSize] at the size it could not get; a later cycle for a strip
    of another size, with memory available, does not call [free], allocates
    once, completes, and leaves the controller in its normal state with the
    frame of that strip. *)
Theorem recovery_after_failed_allocation sizeof_rmt_data_t m px g :
  fits sizeof_rmt_data_t (length px) ->
  size_needed (length px) <> m ->
  exists self',
    showPixels sizeof_rmt_data_t (pixels_of px) (Some g) (after_failure m) []
    = Done tt self'
        ([EvMalloc (size_needed (length px) * Z.pos sizeof_rmt_data_t) true]
           ++ bus_calls (encode_all px) (24 * Z.of_nat (length px)))
    /\ ready self'
    /\ frame_buffer self' = encode_all px ++ replicate 10 0.
Proof.
  intros Hfit Hne.
  assert (Hne' : size_needed (length px) <> mSize (after_failure m)) by exact Hne.
  pose proof (length_fresh_block _ (after_failure m) _ g Hfit Hne') as Hlen.
  destruct (malloc_size _ _ Hfit) as [_ Hle].
  pose proof Hfit as [Hi _].
  destruct (size_needed_bounds _ Hi) as (_ & _ & Hr & Hfrom).
  assert (Hbase : (24 * length px + 10
                   <= length (base_block sizeof_rmt_data_t (after_failure m)
                                (length px) (Some g)))%nat) by bounds.
  assert (Hwork : working_block sizeof_rmt_data_t (after_failure m) (length px)
                    (Some g)
                  = prepared_block sizeof_rmt_data_t (after_failure m)
                      (length px) (Some g)).
  { unfold working_block. rewrite (proj2 (Z.eqb_neq _ _) Hne'). reflexivity. }
  pose proof (showPixels_general sizeof_rmt_data_t (pixels_of px) (Some g)
                (after_failure m) [] (length px) eq_refl Hfit) as Hrun.
  rewrite Hwork, length_prepared_block, drop_prepared_block in Hrun
    by (exact Hbase || lia).
  cbn [mPending pixels_of] in Hrun.
  specialize (Hrun ltac:(discriminate) ltac:(intros Heq; contradiction)
                ltac:(intros _; discriminate) ltac:(bounds) ltac:(bounds)).
  unfold alloc_calls in Hrun. rewrite (proj2 (Z.eqb_neq _ _) Hne') in Hrun.
  eexists. split; [exact Hrun|].
  apply (ready_frame (hspi (after_failure m)) px); [discriminate | exact Hi].
Qed.

Lemma recovery_after_failed_allocation_witness :
  fits 4 (length strip1) /\ size_needed (length strip1) <> 58 /\
  exists self',
    showPixels 4 (pixels_of strip1) (Some stale) (after_failure 58) []
    = Done tt self'
        ([EvMalloc (size_needed (length strip1) * Z.pos 4) true]
           ++ bus_calls (encode_all strip1) (24 * Z.of_nat (length strip1)))
    /\ ready self'
    /\ frame_buffer self' = encode_all strip1 ++ replicate 10 0.
Proof.
  split; [exact fits_4_1|]. split; [vm_compute; discriminate|].
  apply (recovery_after_failed_allocation 4 58 strip1 stale).
  - exact fits_4_1.
  - vm_compute; discriminate.
Defined.

(** X6: no recovery at the same size.  After a failed allocation, a cycle
    for a non-empty strip of the size that was asked for finds
    [size_needed == mSize], allocates nothing whatever memory is available,
    and writes its first symbol through the null pointer. *)
Theorem retry_same_size_after_failure sizeof_rmt_data_t p px heap log :
  size_needed (length (p :: px)) <= INT_MAX ->
  showPixels sizeof_rmt_data_t (pixels_of (p :: px)) heap
    (after_failure (size_needed (length (p :: px)))) log
  = Undefined NullDereference
      (after_failure (size_needed (length (p :: px)))) log.
Proof.
  intros Hi.
  rewrite (showPixels_same_size _ (pixels_of (p :: px)) _
             (after_failure (size_needed (length (p :: px)))) _
             (length (p :: px)) eq_refl Hi eq_refl).
  apply bind_Undefined. cbn [mPending pixels_of].
  rewrite encode_loop_cons. unfold encode_pixel, encode. cbn [app put_then].
  apply bind_Undefined. unfold store_inc. apply bind_Undefined.
  apply store_null. reflexivity.
Qed.

Lemma retry_same_size_after_failure_witness :
  size_needed (length strip1) <= INT_MAX /\
  showPixels 4 (pixels_of strip1) (Some stale)
    (after_failure (size_needed (length strip1))) []
  = Undefined NullDereference (after_failure (size_needed (length strip1))) [].
Proof.
  split; [vm_compute; discriminate|].
  apply (retry_same_size_after_failure 4 (0xFF, 0x00, 0x81) [] (Some stale) []).
  vm_compute; discriminate.
Defined.

(** ** Runs of cycles *)

(** X7: the frame buffer keeps nothing of earlier frames.  After any cycle
    of a run, whatever strips were shown before and whatever the allocated
    memory held, the frame buffer is the encoding of that cycle's strip
    followed by ten zero bytes, and that encoding is what the cycle sent. *)
Theorem frame_is_last_strip sizeof_rmt_data_t cycles self (k : nat) px heap :
  ready self ->
  Forall (feasible sizeof_rmt_data_t) cycles ->
  cycles !! k = Some (px, heap) ->
  exists pre post log,
    drive sizeof_rmt_data_t cycles self !! k = Some (pre, Done tt post log)
    /\ frame_buffer post = encode_all px ++ replicate 10 0
    /\ In (EvWriteBytes (encode_all px) (24 * Z.of_nat (length px))) log
    /\ ready post.
Proof.
  intros Hr Hall Hk.
  destruct (drive_lookup _ _ _ _ _ _ Hr Hall Hk) as (pre & Hpre & Hlook & _).
  assert (Hfeas : feasible sizeof_rmt_data_t (px, heap))
    by (eapply Forall_lookup_1; eassumption).
  destruct Hfeas as [Hfit Hheap]. cbn [fst snd] in *.
  destruct (cycle_summary _ _ _ _ Hpre Hfit (fun _ => Hheap))
    as (post & rest & Hrun & _ & _ & _ & _ & Hfb & Hpost).
  rewrite Hrun in Hlook. eexists pre, post, _.
  split; [exact Hlook|]. split; [exact Hfb|]. split; [|exact Hpost].
  apply in_or_app. right. unfold bus_calls. simpl. auto.
Qed.

Lemma frame_is_last_strip_witness :
  ready initialised /\ Forall (feasible 4) three_cycles /\
  three_cycles !! 2%nat = Some (strip2, Some stale) /\
  exists pre post log,
    drive 4 three_cycles initialised !! 2%nat = Some (pre, Done tt post log)
    /\ frame_buffer post = encode_all strip2 ++ replicate 10 0
    /\ In (EvWriteBytes (encode_all strip2) (24 * Z.of_nat (length strip2))) log
    /\ ready post.
Proof.
  split; [exact ready_initialised|]. split; [exact feasible_three_cycles|].
  split; [reflexivity|].
  apply (frame_is_last_strip 4 three_cycles initialised 2 strip2 (Some stale)).
  - exact ready_initialised.
  - exact feasible_three_cycles.
  - reflexivity.
Defined.

Lemma reallocations_app l1 l2 :
  reallocations (l1 ++ l2) = (reallocations l1 + reallocations l2)%nat.
Proof. unfold reallocations. rewrite List.filter_app, length_app. reflexivity. Qed.

Lemma frees_app l1 l2 : frees (l1 ++ l2) = (frees l1 + frees l2)%nat.
Proof. unfold frees. rewrite List.filter_app, length_app. reflexivity. Qed.

Lemma frees_cycle sizeof_rmt_data_t self n data len :
  frees (alloc_calls sizeof_rmt_data_t self n ++ bus_calls data len)
  = if size_needed n =? mSize self then 0%nat else owned self.
Proof.
  unfold frees, alloc_calls, owned.
  destruct (size_needed n =? mSize self); [reflexivity|].
  destruct (led_data self); reflexivity.
Qed.

Lemma ready_same_size_owned self n :
  ready self -> size_needed n = mSize self -> owned self = 1%nat.
Proof.
  intros [_ Hinv] Heq. unfold owned. destruct (led_data self); [reflexivity|].
  pose proof (size_needed_nonzero n). lia.
Qed.

(** X8: allocations and releases balance over a run.  Counting the buffer
    the controller owns at the start, every [malloc] of a run but the one
    whose block is still owned at the end is matched by one [free]: after a
    non-empty run exactly one block is owned, none has leaked and none was
    freed twice. *)
Theorem allocation_balance sizeof_rmt_data_t cycles : forall self,
  ready self ->
  Forall (feasible sizeof_rmt_data_t) cycles ->
  (reallocations (run_log (drive sizeof_rmt_data_t cycles self)) + owned self
   = frees (run_log (drive sizeof_rmt_data_t cycles self))
     + match cycles with [] => owned self | _ :: _ => 1 end)%nat.
Proof.
  induction cycles as [|[px heap] cycles IH]; intros self Hr Hall.
  - reflexivity.
  - apply Forall_cons in Hall as [[Hfit Hheap] Hall]. cbn [fst snd] in *.
    destruct (cycle_summary sizeof_rmt_data_t self px heap Hr Hfit
                (fun _ => Hheap))
      as (self' & rest & Hrun & _ & _ & Hblock & _ & _ & Hr').
    cbn [drive]. rewrite Hrun. unfold run_log. cbn [flat_map snd outcome_log].
    fold (run_log (drive sizeof_rmt_data_t cycles self')).
    rewrite reallocations_app, frees_app, reallocations_cycle, frees_cycle.
    specialize (IH self' Hr' Hall).
    assert (Hown : owned self' = 1%nat) by (unfold owned; rewrite Hblock; reflexivity).
    rewrite Hown in IH.
    assert (Hrest : reallocations (run_log (drive sizeof_rmt_data_t cycles self'))
                    = frees (run_log (drive sizeof_rmt_data_t cycles self')))
      by (destruct cycles; lia).
    rewrite Hrest.
    destruct (Z.eqb_spec (size_needed (length px)) (mSize self)) as [Heq|Hne].
    + rewrite (ready_same_size_owned self _ Hr Heq). lia.
    + lia.
Qed.

Lemma allocation_balance_witness :
  ready initialised /\ Forall (feasible 4) three_cycles /\
  (reallocations (run_log (drive 4 three_cycles initialised)) + owned initialised
   = frees (run_log (drive 4 three_cycles initialised))
     + match three_cycles with [] => owned initialised | _ :: _ => 1 end)%nat.
Proof.
  split; [exact ready_initialised|]. split; [exact feasible_three_cycles|].
  apply (allocation_balance 4 three_cycles initialised).
  - exact ready_initialised.
  - exact feasible_three_cycles.
Defined.

(** ** The encoding *)

Lemma scaled_bytes_inj px : forall px',
  scaled_bytes px = scaled_bytes px' -> px = px'.
Proof.
  induction px as [|[[a b] c] px IH]; intros [|[[a' b'] c'] px'] H;
    try reflexivity; try discriminate.
  cbn in H. injection H as -> -> -> H. f_equal. apply IH. exact H.
Qed.

Lemma encode_all_injective px px' :
  Forall pixel_bytes px -> Forall pixel_bytes px' ->
  encode_all px = encode_all px' -> px = px'.
Proof.
  intros Hb Hb' Heq. apply scaled_bytes_inj.
  pose proof (decode_stream_encode_all px Hb) as H.
  rewrite Heq, (decode_stream_encode_all px' Hb') in H.
  congruence.
Qed.

Lemma pixel_bytes_strip1 : Forall pixel_bytes strip1.
Proof. repeat constructor; vm_compute; discriminate. Qed.

Lemma pixel_bytes_strip1b : Forall pixel_bytes strip1b.
Proof. repeat constructor; vm_compute; discriminate. Qed.

(** X9: the encoding loses nothing.  Two different strips of scaled bytes,
    whether they differ in length or in one bit of one channel of one pixel,
    are shown differently: the bytes their drive cycles hand to the bus
    differ, and so do the frame buffers the cycles leave. *)
Theorem distinct_strips_distinct_transmissions sizeof_rmt_data_t
    self0 self1 px0 px1 heap0 heap1 :
  ready self0 -> ready self1 ->
  fits sizeof_rmt_data_t (length px0) -> fits sizeof_rmt_data_t (length px1) ->
  (size_needed (length px0) <> mSize self0 -> heap0 <> None) ->
  (size_needed (length px1) <> mSize self1 -> heap1 <> None) ->
  Forall pixel_bytes px0 -> Forall pixel_bytes px1 ->
  px0 <> px1 ->
  exists post0 log0 data0 size0 post1 log1 data1 size1,
    showPixels sizeof_rmt_data_t (pixels_of px0) heap0 self0 []
    = Done tt post0 log0
    /\ showPixels sizeof_rmt_data_t (pixels_of px1) heap1 self1 []
       = Done tt post1 log1
    /\ List.filter is_bus log0
       = [ EvBeginTransaction (mkSPISettings 6400000 MSBFIRST SPI_MODE0);
           EvWriteBytes data0 size0; EvEndTransaction ]
    /\ List.filter is_bus log1
       = [ EvBeginTransaction (mkSPISettings 6400000 MSBFIRST SPI_MODE0);
           EvWriteBytes data1 size1; EvEndTransaction ]
    /\ data0 <> data1
    /\ frame_buffer post0 <> frame_buffer post1.
Proof.
  intros Hr0 Hr1 Hfit0 Hfit1 Hheap0 Hheap1 Hb0 Hb1 Hne.
  destruct (cycle_summary _ _ _ _ Hr0 Hfit0 Hheap0)
    as (post0 & rest0 & Hrun0 & _ & _ & _ & _ & Hfb0 & _).
  destruct (cycle_summary _ _ _ _ Hr1 Hfit1 Hheap1)
    as (post1 & rest1 & Hrun1 & _ & _ & _ & _ & Hfb1 & _).
  assert (Hbus : forall self n data size,
            List.filter is_bus
              (alloc_calls sizeof_rmt_data_t self n ++ bus_calls data size)
            = bus_calls data size).
  { intros self n data size. rewrite List.filter_app. unfold alloc_calls.
    destruct (size_needed n =? mSize self); [reflexivity|].
    destruct (led_data self); reflexivity. }
  assert (Hdiff : encode_all px0 <> encode_all px1).
  { intros Heq. apply Hne. apply encode_all_injective; assumption. }
  eexists post0, _, (encode_all px0), _, post1, _, (encode_all px1), _.
  split; [exact Hrun0|]. split; [exact Hrun1|].
  split; [apply Hbus|]. split; [apply Hbus|]. split; [exact Hdiff|].
  rewrite Hfb0, Hfb1. intros Heq. apply Hdiff.
  apply app_inv_tail in Heq. exact Heq.
Qed.

Lemma distinct_strips_distinct_transmissions_witness :
  ready initialised /\ fits 4 (length strip1) /\ fits 4 (length strip1b) /\
  Forall pixel_bytes strip1 /\ Forall pixel_bytes strip1b /\
  strip1 <> strip1b /\
  exists post0 log0 data0 size0 post1 log1 data1 size1,
    showPixels 4 (pixels_of strip1) (Some stale) initialised []
    = Done tt post0 log0
    /\ showPixels 4 (pixels_of strip1b) (Some stale) initialised []
       = Done tt post1 log1
    /\ List.filter is_bus log0
       = [ EvBeginTransaction (mkSPISettings 6400000 MSBFIRST SPI_MODE0);
           EvWriteBytes data0 size0; EvEndTransaction ]
    /\ List.filter is_bus log1
       = [ EvBeginTransaction (mkSPISettings 6400000 MSBFIRST SPI_MODE0);
           EvWriteBytes data1 size1; EvEndTransaction ]
    /\ data0 <> data1
    /\ frame_buffer post0 <> frame_buffer post1.
Proof.
  split; [exact ready_initialised|]. split; [exact fits_4_1|].
  split; [exact fits_4_1|]. split; [exact pixel_bytes_strip1|].
  split; [exact pixel_bytes_strip1b|]. split; [discriminate|].
  apply (distinct_strips_distinct_transmissions 4 initialised initialised
           strip1 strip1b (Some stale) (Some stale)).
  - exact ready_initialised.
  - exact ready_initialised.
  - exact fits_4_1.
  - exact fits_4_1.
  - discriminate.
  - discriminate.
  - exact pixel_bytes_strip1.
  - exact pixel_bytes_strip1b.
  - discriminate.
Defined.

(** ** A pixel source that disagrees with its own count *)

Lemma working_block_tail sizeof_rmt_data_t self n heap :
  ready self ->
  fits sizeof_rmt_data_t n ->
  (size_needed n <> mSize self -> heap <> None) ->
  (24 * n + 10
   <= length (working_block sizeof_rmt_data_t self n heap))%nat
  /\ take 10 (drop (24 * n) (working_block sizeof_rmt_data_t self n heap))
     = replicate 10 0
  /\ (size_needed n = mSize self -> led_data self <> None).
Proof.
  intros Hr Hfit Hheap. pose proof Hfit as [Hi _].
  destruct (size_needed_bounds _ Hi) as (_ & _ & Hrl & Hfrom).
  destruct (malloc_size _ _ Hfit) as [_ Hle].
  unfold working_block.
  destruct (Z.eqb_spec (size_needed n) (mSize self)) as [Heq|Hne].
  - destruct Hr as [_ Hinv].
    destruct (led_data self) as [block|] eqn:Hb.
    + destruct Hinv as (_ & Hlen & Hz). change (default [] (Some block)) with block.
      rewrite <- Heq, Hfrom in Hz.
      replace (Z.to_nat (24 * Z.of_nat n)) with (24 * n)%nat in Hz by lia.
      split; [bounds|]. split; [exact Hz | discriminate].
    + pose proof (size_needed_nonzero n). lia.
  - destruct heap as [g|]; [|destruct (Hheap Hne eq_refl)].
    pose proof (length_fresh_block _ self _ g Hfit Hne) as Hlen.
    assert (Hbase : (24 * n + 10
                     <= length (base_block sizeof_rmt_data_t self n (Some g)))%nat)
      by bounds.
    rewrite length_prepared_block, drop_prepared_block by lia.
    split; [exact Hbase|]. split; [|intros Heq; contradiction].
    apply take_app_length'. rewrite length_replicate. reflexivity.
Qed.

(** X10: a source that yields fewer pixels than [size()] reports.  The
    cycle completes; the buffer is sized by [size()], but the write is
    given 24 bytes for each pixel actually encoded and those bytes only;
    the reset tail stays zero. *)
Theorem short_source_sends_what_it_encoded sizeof_rmt_data_t self n px heap :
  ready self ->
  fits sizeof_rmt_data_t n ->
  (size_needed n <> mSize self -> heap <> None) ->
  (length px <= n)%nat ->
  exists self' before,
    showPixels sizeof_rmt_data_t (mkPixelController (Z.of_nat n) px) heap self []
    = Done tt self'
        (before ++ bus_calls (encode_all px) (24 * Z.of_nat (length px)))
    /\ List.filter is_bus before = []
    /\ mSize self' = size_needed n
    /\ take (24 * length px) (frame_buffer self') = encode_all px
    /\ forall i : nat,
         (24 * n <= i < 24 * n + 10)%nat -> frame_buffer self' !! i = Some 0.
Proof.
  intros Hr Hfit Hheap Hshort.
  destruct (working_block_tail _ _ _ _ Hr Hfit Hheap) as (Hlen & Hz & Hown).
  pose proof Hfit as [Hi _].
  destruct (size_needed_bounds _ Hi) as (_ & _ & Hrl & Hfrom).
  pose proof (showPixels_general sizeof_rmt_data_t
                (mkPixelController (Z.of_nat n) px) heap self [] n eq_refl Hfit
                (proj1 Hr) Hown Hheap) as Hrun.
  cbn [mPending] in Hrun.
  specialize (Hrun ltac:(lia) ltac:(bounds)).
  set (W := working_block sizeof_rmt_data_t self n heap) in *.
  eexists _, (alloc_calls sizeof_rmt_data_t self n).
  split; [exact Hrun|]. split.
  { unfold alloc_calls.
    destruct (size_needed n =? mSize self); [reflexivity|].
    destruct (led_data self); reflexivity. }
  split; [reflexivity|].
  unfold frame_buffer; cbn [led_data mSize].
  replace (Z.to_nat (size_needed n)) with (24 * n + 10)%nat by bounds.
  split.
  - rewrite take_take, Nat.min_l by lia.
    apply take_app_length'. rewrite length_encode_all. reflexivity.
  - intros i Hi'. rewrite lookup_take_lt by lia.
    rewrite lookup_app_r by (rewrite length_encode_all; lia).
    rewrite length_encode_all, lookup_drop.
    replace (24 * length px + (i - 24 * length px))%nat with i by lia.
    assert (Hlk : take 10 (drop (24 * n) W) !! (i - 24 * n)%nat = Some 0)
      by (rewrite Hz; apply lookup_replicate_2; lia).
    rewrite lookup_take_lt, lookup_drop in Hlk by lia.
    replace (24 * n + (i - 24 * n))%nat with i in Hlk by lia.
    exact Hlk.
Qed.

Lemma short_source_sends_what_it_encoded_witness :
  ready initialised /\ fits 4 2 /\ (length strip1 <= 2)%nat /\
  exists self' before,
    showPixels 4 (mkPixelController (Z.of_nat 2) strip1) (Some stale) initialised []
    = Done tt self'
        (before ++ bus_calls (encode_all strip1) (24 * Z.of_nat (length strip1)))
    /\ List.filter is_bus before = []
    /\ mSize self' = size_needed 2
    /\ take (24 * length strip1) (frame_buffer self') = encode_all strip1
    /\ forall i : nat,
         (24 * 2 <= i < 24 * 2 + 10)%nat -> frame_buffer self' !! i = Some 0.
Proof.
  split; [exact ready_initialised|]. split; [exact fits_4_2|].
  split; [simpl; lia|].
  apply (short_source_sends_what_it_encoded 4 initialised 2 strip1 (Some stale)).
  - exact ready_initialised.
  - exact fits_4_2.
  - discriminate.
  - simpl; lia.
Defined.

(** X11: a source that yields more pixels than [size()] reports.  As long
    as the symbols fit the allocated block the cycle completes, and the loop
    has written past the encoded region: every byte of the reset tail now
    holds a symbol, none is zero, and the write is given more bytes than the
    frame buffer has. *)
Theorem long_source_overwrites_reset_tail sizeof_rmt_data_t self n px heap :
  ready self ->
  fits sizeof_rmt_data_t n ->
  (size_needed n <> mSize self -> heap <> None) ->
  (n < length px)%nat ->
  24 * Z.of_nat (length px)
    <= Z.of_nat (length (working_block sizeof_rmt_data_t self n heap)) ->
  24 * Z.of_nat (length px) <= INT_MAX ->
  exists self' before,
    showPixels sizeof_rmt_data_t (mkPixelController (Z.of_nat n) px) heap self []
    = Done tt self'
        (before ++ bus_calls (encode_all px) (24 * Z.of_nat (length px)))
    /\ mSize self' = size_needed n
    /\ mSize self' < 24 * Z.of_nat (length px)
    /\ forall i : nat,
         (24 * n <= i < 24 * n + 10)%nat ->
         exists s, frame_buffer self' !! i = Some s
                   /\ (s = mOne \/ s = mZero) /\ s <> 0.
Proof.
  intros Hr Hfit Hheap Hlong Hcap Hmax.
  destruct (working_block_tail _ _ _ _ Hr Hfit Hheap) as (Hlen & Hz & Hown).
  pose proof Hfit as [Hi _].
  destruct (size_needed_bounds _ Hi) as (_ & _ & Hrl & Hfrom).
  pose proof (showPixels_general sizeof_rmt_data_t
                (mkPixelController (Z.of_nat n) px) heap self [] n eq_refl Hfit
                (proj1 Hr) Hown Hheap Hcap Hmax) as Hrun.
  cbn [mPending] in Hrun.
  eexists _, (alloc_calls sizeof_rmt_data_t self n).
  split; [exact Hrun|]. split; [reflexivity|].
  cbn [mSize]. split; [bounds|].
  intros i Hi'. unfold frame_buffer; cbn [led_data mSize].
  replace (Z.to_nat (size_needed n)) with (24 * n + 10)%nat by bounds.
  rewrite lookup_take_lt by lia.
  rewrite lookup_app_l by (rewrite length_encode_all; lia).
  destruct (lookup_lt_is_Some_2 (encode_all px) i
              ltac:(rewrite length_encode_all; lia)) as [s Hs].
  exists s. split; [exact Hs|].
  destruct (Forall_lookup_1 _ _ _ _ (encode_all_symbols px) Hs) as [-> | ->];
    (split; [auto | discriminate]).
Qed.

Lemma long_source_overwrites_reset_tail_witness :
  ready initialised /\ fits 4 1 /\ (1 < length strip2)%nat /\
  exists self' before,
    showPixels 4 (mkPixelController (Z.of_nat 1) strip2) (Some stale) initialised []
    = Done tt self'
        (before ++ bus_calls (encode_all strip2) (24 * Z.of_nat (length strip2)))
    /\ mSize self' = size_needed 1
    /\ mSize self' < 24 * Z.of_nat (length strip2)
    /\ forall i : nat,
         (24 * 1 <= i < 24 * 1 + 10)%nat ->
         exists s, frame_buffer self' !! i = Some s
                   /\ (s = mOne \/ s = mZero) /\ s <> 0.
Proof.
  split; [exact ready_initialised|]. split; [exact fits_4_1|].
  split; [simpl; lia|].
  apply (long_source_overwrites_reset_tail 4 initialised 1 strip2 (Some stale)).
  - exact ready_initialised.
  - exact fits_4_1.
  - discriminate.
  - simpl; lia.
  - vm_compute; discriminate.
  - vm_compute; discriminate.
Defined.

(** X12: the allocation is larger than the frame.  A reallocating cycle
    asks [malloc] for [sizeof(rmt_data_t)] bytes per frame byte; the block
    has that length, and every byte behind the frame buffer still holds what
    the allocator handed out: the cycle never writes there. *)
Theorem block_is_oversized_and_untouched sizeof_rmt_data_t self px g :
  ready self ->
  fits sizeof_rmt_data_t (length px) ->
  size_needed (length px) <> mSize self ->
  exists self' log block,
    showPixels sizeof_rmt_data_t (pixels_of px) (Some g) self [] = Done tt self' log
    /\ In (EvMalloc (size_needed (length px) * Z.pos sizeof_rmt_data_t) true) log
    /\ led_data self' = Some block
    /\ Z.of_nat (length block)
       = Z.of_nat (length (frame_buffer self')) * Z.pos sizeof_rmt_data_t
    /\ drop (length (frame_buffer self')) block
       = drop (length (frame_buffer self'))
           (map g (seq 0 (Z.to_nat (size_needed (length px)
                                    * Z.pos sizeof_rmt_data_t)))).
Proof.
  intros Hr Hfit Hne.
  destruct (cycle_summary _ _ _ (Some g) Hr Hfit ltac:(intros _; discriminate))
    as (self' & rest & Hrun & _ & _ & Hblock & Hrest & Hfb & _).
  pose proof (length_fresh_block _ self _ g Hfit Hne) as Hlen.
  destruct (malloc_size _ _ Hfit) as [_ Hle].
  pose proof Hfit as [Hi _].
  destruct (size_needed_bounds _ Hi) as (_ & _ & Hrl & Hfrom).
  assert (Hfbl : length (frame_buffer self') = (24 * length px + 10)%nat).
  { rewrite Hfb, length_app, length_encode_all, length_replicate. reflexivity. }
  eexists self', _, _. split; [exact Hrun|]. split.
  { apply in_or_app. left. unfold alloc_calls.
    rewrite (proj2 (Z.eqb_neq _ _) Hne). apply in_or_app. right. left.
    reflexivity. }
  split; [exact Hblock|]. rewrite Hfbl. split.
  - rewrite !length_app, length_encode_all, length_replicate, Hrest, length_drop.
    bounds.
  - rewrite app_assoc, drop_app_length'
      by (rewrite length_app, length_encode_all, length_replicate; reflexivity).
    rewrite Hrest. unfold base_block.
    rewrite (proj2 (Z.eqb_neq _ _) Hne). reflexivity.
Qed.

Lemma block_is_oversized_and_untouched_witness :
  ready initialised /\ fits 4 (length strip1) /\
  size_needed (length strip1) <> mSize initialised /\
  exists self' log block,
    showPixels 4 (pixels_of strip1) (Some stale) initialised [] = Done tt self' log
    /\ In (EvMalloc (size_needed (length strip1) * Z.pos 4) true) log
    /\ led_data self' = Some block
    /\ Z.of_nat (length block)
       = Z.of_nat (length (frame_buffer self')) * Z.pos 4
    /\ drop (length (frame_buffer self')) block
       = drop (length (frame_buffer self'))
           (map stale (seq 0 (Z.to_nat (size_needed (length strip1) * Z.pos 4)))).
Proof.
  split; [exact ready_initialised|]. split; [exact fits_4_1|].
  split; [discriminate|].
  apply (block_is_oversized_and_untouched 4 initialised strip1 stale).
  - exact ready_initialised.
  - exact fits_4_1.
  - discriminate.
Defined.

(** ** Every path through a cycle *)

Lemma quiet_ret {A} (a : A) : quiet (ret a).
Proof. intros self log. split; reflexivity. Qed.

Lemma quiet_undefined {A} f : quiet (@undefined A f).
Proof. intros self log. split; reflexivity. Qed.

Lemma quiet_int z : quiet (int_ z).
Proof.
  unfold int_. apply quiet_ret.
Qed.

Lemma quiet_bind {A B} (m : M A) (k : A -> M B) :
  quiet m -> (forall a, quiet (k a)) -> quiet (bind m k).
Proof.
  intros Hm Hk self log. unfold bind.
  destruct (Hm self log) as [Hl Hh].
  destruct (m self log) as [a s l|f s l]; cbn in *; subst l.
  - destruct (Hk a s log) as [Hl' Hh']. split; congruence.
  - split; [reflexivity | exact Hh].
Qed.

Lemma quiet_store i v : quiet (store i v).
Proof.
  intros self log. unfold store, bind, read.
  destruct (led_data self) as [block|]; [|split; reflexivity].
  destruct ((0 <=? i) && (i <? Z.of_nat (length block))); split; reflexivity.
Qed.

Lemma quiet_store_inc cur v : quiet (store_inc cur v).
Proof.
  unfold store_inc. apply quiet_bind; [apply quiet_store|].
  intros _. apply quiet_int.
Qed.

Lemma quiet_for_steps body n : forall i,
  (forall i, quiet (body i)) -> quiet (for_steps n i body).
Proof.
  induction n as [|n IH]; intros i Hbody; [apply quiet_ret|].
  cbn [for_steps]. apply quiet_bind; [apply Hbody|].
  intros _. apply quiet_bind; [apply quiet_int|].
  intros i'. apply IH, Hbody.
Qed.

Lemma quiet_put_then {A} (k : Z -> M A) vs : forall cur,
  (forall cur, quiet (k cur)) -> quiet (put_then vs cur k).
Proof.
  induction vs as [|v vs IH]; intros cur Hk; [apply Hk|].
  cbn [put_then]. apply quiet_bind; [apply quiet_store_inc|].
  intros cur'. apply IH, Hk.
Qed.

Lemma quiet_encode_loop px : forall cur, quiet (encode_loop px cur).
Proof.
  induction px as [|p px IH]; intros cur; [apply quiet_ret|].
  rewrite encode_loop_cons. apply quiet_put_then. exact IH.
Qed.

(** What [bind] does after a quiet computation. *)
Lemma bind_quiet {A B} (m : M A) (k : A -> M B) self log :
  quiet m ->
  (exists f s, bind m k self log = Undefined f s log /\ hspi s = hspi self)
  \/ (exists a s, bind m k self log = k a s log /\ hspi s = hspi self).
Proof.
  intros Hm. unfold bind. destruct (Hm self log) as [Hl Hh].
  destruct (m self log) as [a s l|f s l]; cbn in *; subst l;
    [right | left]; eauto.
Qed.

Lemma transmit_paths cur self log :
  let out :=
    (beginTransaction (mkSPISettings 6400000 MSBFIRST SPI_MODE0) ;;
     writeBytes cur ;;
     endTransaction) self log in
  hspi (outcome_self out) = hspi self
  /\ exists b, outcome_log out = log ++ b /\ bus_shape b.
Proof.
  unfold beginTransaction, endTransaction, writeBytes, via_hspi, bind, read, emit,
    undefined, bus_shape.
  cbv zeta. destruct (hspi self) as [h|] eqn:Hh; cbn.
  2:{ rewrite Hh. split; [reflexivity|]. exists []. rewrite app_nil_r. auto. }
  destruct (led_data self) as [block|]; cbn.
  - destruct ((0 <=? cur) && (cur <=? Z.of_nat (length block))); cbn;
      rewrite ?Hh; cbn; (split; [congruence|]).
    + eexists [_; _; _]. rewrite <- !app_assoc. split; [reflexivity|].
      right. right. eauto.
    + eexists [_]. split; [reflexivity|]. auto.
  - destruct (cur =? 0); cbn; rewrite ?Hh; cbn; (split; [congruence|]).
    + eexists [_; _; _]. rewrite <- !app_assoc. split; [reflexivity|].
      right. right. eauto.
    + eexists [_]. split; [reflexivity|]. auto.
Qed.

Lemma encode_and_send_paths px self log :
  let out :=
    (cur <- encode_loop px 0 ;;
     beginTransaction (mkSPISettings 6400000 MSBFIRST SPI_MODE0) ;;
     writeBytes cur ;;
     endTransaction) self log in
  hspi (outcome_self out) = hspi self
  /\ exists b, outcome_log out = log ++ b /\ bus_shape b.
Proof.
  cbv zeta.
  destruct (bind_quiet (encode_loop px 0)
              (fun cur =>
                 beginTransaction (mkSPISettings 6400000 MSBFIRST SPI_MODE0) ;;
                 writeBytes cur ;; endTransaction) self log
              (quiet_encode_loop px 0))
    as [(f & s & -> & Hh) | (cur & s & -> & Hh)].
  - split; [exact Hh|]. exists []. rewrite app_nil_r. split; [reflexivity|].
    left. reflexivity.
  - destruct (transmit_paths cur s log) as [Hh' Hb]. split; [congruence | exact Hb].
Qed.

Lemma reallocate_steps {B} sizeof_rmt_data_t (sn : Z) heap (k : unit -> M B)
    self log :
  bind
    (p <- read led_data ;;
     (match p with Some _ => free | None => ret tt end) ;;
     modify (set_mSize sn) ;;
     m <- read mSize ;;
     block <- malloc (to_size_t (to_size_t m * Z.pos sizeof_rmt_data_t)) heap ;;
     modify (set_led_data block) ;;
     from <- int_ (sn - 10) ;;
     for_ from sn (fun i => store i 0)) k self log
  = bind (from <- int_ (sn - 10) ;; for_ from sn (fun i => store i 0)) k
      {| hspi := hspi self;
         led_data :=
           match heap with
           | Some g =>
               Some (map g (seq 0 (Z.to_nat
                  (to_size_t (to_size_t sn * Z.pos sizeof_rmt_data_t)))))
           | None => None
           end;
         mSize := sn |}
      (log ++ match led_data self with Some _ => [EvFree] | None => [] end
           ++ [EvMalloc (to_size_t (to_size_t sn * Z.pos sizeof_rmt_data_t))
                 (match heap with Some _ => true | None => false end)]).
Proof.
  unfold bind at 1. rewrite bind_read.
  assert (Hfree : forall {C} (k : unit -> M C),
    bind (match led_data self with Some _ => free | None => ret tt end) k self log
    = k tt self (log ++ match led_data self with Some _ => [EvFree] | None => [] end)).
  { intros C k'. destruct (led_data self); [reflexivity|].
    rewrite bind_ret, app_nil_r. reflexivity. }
  rewrite Hfree, bind_modify, bind_read. cbn [set_mSize mSize].
  destruct heap as [g|].
  - rewrite (bind_Done _ _ _ _ _ _ _ (malloc_ok _ g _ _)), bind_modify.
    rewrite <- app_assoc. reflexivity.
  - rewrite (bind_Done _ _ _ _ _ _ _ (malloc_null _ _ _)), bind_modify.
    rewrite <- app_assoc. reflexivity.
Qed.

Lemma bind_int {B} z (k : Z -> M B) self log :
  bind (int_ z) k self log
  = k (to_int z) self log.
Proof. reflexivity. Qed.

(** X13: the calls of a cycle on every path, defined or not, for every
    controller, pixel source and allocator answer.  [hspi] is never changed.
    The allocator is called at most once, after at most one [free], and
    [free] is only ever given a non-null [led_data].  The bus calls come
    after the allocator calls and are nothing, an opened transaction, or a
    transaction opened, written once and closed. *)
Theorem showPixels_calls_on_every_path sizeof_rmt_data_t pixels heap self log :
  let out := showPixels sizeof_rmt_data_t pixels heap self log in
  hspi (outcome_self out) = hspi self
  /\ exists a b,
       outcome_log out = log ++ a ++ b /\ alloc_shape self a /\ bus_shape b.
Proof.
  cbv zeta. unfold showPixels. cbv zeta.
  rewrite !bind_int, bind_read.
  set (sn := to_int (to_int (to_int (size pixels * 3) * 8) + 10)).
  destruct (negb (sn =? mSize self)).
  - rewrite reallocate_steps.
    set (self1 := mkController _ _ _). set (log1 := log ++ _).
    assert (Hshape : alloc_shape self
              (match led_data self with Some _ => [EvFree] | None => [] end
               ++ [EvMalloc
                     (to_size_t (to_size_t sn * Z.pos sizeof_rmt_data_t))
                     (match heap with Some _ => true | None => false end)])).
    { unfold alloc_shape. destruct (led_data self) eqn:Hb; cbn.
      - right. right. do 2 eexists. split; [reflexivity | discriminate].
      - right. left. do 2 eexists. split; reflexivity. }
    match goal with
    | |- context [bind ?m ?k self1 log1] =>
        destruct (bind_quiet m k self1 log1) as
          [(f & s & -> & Hh) | ([] & s & -> & Hh)]
    end.
    + apply quiet_bind; [apply quiet_int|]. intros from.
      apply quiet_for_steps. intros i. apply quiet_store.
    + change (hspi self1) with (hspi self) in Hh.
      split; [exact Hh|]. eexists _, []. unfold log1.
      rewrite app_nil_r. split; [reflexivity|]. split; [exact Hshape|].
      left. reflexivity.
    + change (hspi self1) with (hspi self) in Hh.
      destruct (encode_and_send_paths (mPending pixels) s log1)
        as [Hh' (b & Hb & Hbs)].
      split; [congruence|]. eexists _, b. rewrite Hb. unfold log1.
      rewrite <- app_assoc. split; [reflexivity|]. split; assumption.
  - rewrite bind_ret.
    destruct (encode_and_send_paths (mPending pixels) self log)
      as [Hh' (b & Hb & Hbs)].
    split; [exact Hh'|]. exists [], b. split; [exact Hb|].
    split; [left; reflexivity | exact Hbs].
Qed.

(** X14: showing an unchanged strip again.  After a cycle for a strip, a
    further cycle for the same strip leaves the controller exactly as it
    was, whatever the allocator would answer, and makes no call but the one
    transaction, which carries the same bytes. *)
Theorem reshow_is_idempotent sizeof_rmt_data_t self px heap :
  ready self ->
  fits sizeof_rmt_data_t (length px) ->
  (size_needed (length px) <> mSize self -> heap <> None) ->
  exists self' log,
    showPixels sizeof_rmt_data_t (pixels_of px) heap self [] = Done tt self' log
    /\ forall heap',
         showPixels sizeof_rmt_data_t (pixels_of px) heap' self' []
         = Done tt self'
             (bus_calls (encode_all px) (24 * Z.of_nat (length px))).
Proof.
  intros Hr Hfit Hheap.
  destruct (cycle_summary _ _ _ _ Hr Hfit Hheap)
    as (self' & rest & Hrun & _ & Hsize & Hblock & _ & _ & Hr').
  eexists self', _. split; [exact Hrun|]. intros heap'.
  rewrite (showPixels_ok _ _ _ heap' _ Hr' Hfit)
    by (intros Hne; symmetry in Hsize; contradiction).
  unfold alloc_calls, base_block.
  rewrite (proj2 (Z.eqb_eq _ _) (eq_sym Hsize)), Hblock. cbn [default app].
  unfold id.
  assert (Hd : drop (24 * length px + 10)
                 (encode_all px ++ replicate 10 0 ++ rest) = rest).
  { rewrite app_assoc. apply drop_app_length'.
    rewrite length_app, length_encode_all, length_replicate. reflexivity. }
  rewrite Hd, <- Hblock, <- Hsize. destruct self'; reflexivity.
Qed.

Lemma reshow_is_idempotent_witness :
  ready initialised /\ fits 4 (length strip1) /\
  exists self' log,
    showPixels 4 (pixels_of strip1) (Some stale) initialised [] = Done tt self' log
    /\ forall heap',
         showPixels 4 (pixels_of strip1) heap' self' []
         = Done tt self'
             (bus_calls (encode_all strip1) (24 * Z.of_nat (length strip1))).
Proof.
  split; [exact ready_initialised|]. split; [exact fits_4_1|].
  apply (reshow_is_idempotent 4 initialised strip1 (Some stale)).
  - exact ready_initialised.
  - exact fits_4_1.
  - discriminate.
Defined.
